(** * Local-CLI-Runner: the job execution and event distribution core

    A shallow embedding of the Go packages [runner] (ring buffer, process,
    manager, runner) and [connector] (the Claude line parser), with the
    properties of the specification stated over it.

    Conventions of the embedding.
    - A Go [int] is a [Z]; additions go through [int_add], which wraps at
      64 bits, and [%] is [Z.rem] (truncated, as in Go).
    - A run-time panic is a value: functions that can panic return in the
      monad [go], whose [Panic] carries the kind of the panic.
    - [time.Time] and [time.Duration] are [Z] (nanoseconds); every function
      that reads [time.Now()] takes the instant read as an argument [now].
    - The mutexes make each method body one atomic step; a method is a
      function from the state before to the state after.
    - A [map] is a [gmap]; a [for ... range] over a map is a [map_fold]. *)

From Stdlib Require Import ZArith Lia.
From stdpp Require Import gmap strings list fin_maps.

Local Open Scope Z_scope.

(** ** Go integers and panics *)

Definition int_min : Z := - 2 ^ 63.
Definition int_max : Z := 2 ^ 63 - 1.

Definition int_wrap (z : Z) : Z := (z + 2 ^ 63) mod 2 ^ 64 - 2 ^ 63.

Definition int_add (a b : Z) : Z := int_wrap (a + b).

Inductive panic : Set :=
  | IndexOutOfRange
  | IntegerDivideByZero
  | MakeSliceLenOutOfRange
  | SliceBoundsOutOfRange
  | SendOnClosedChannel
  | CloseOfClosedChannel
  | NonPositiveTickerInterval.

Inductive go (A : Type) : Type :=
  | Ok (a : A)
  | Panic (e : panic).

Arguments Ok {A} a.
Arguments Panic {A} e.

Definition go_bind {A B : Type} (f : A -> go B) (m : go A) : go B :=
  match m with
  | Ok a => f a
  | Panic e => Panic e
  end.

#[global] Instance go_ret : MRet go := fun A a => Ok a.
#[global] Instance go_mbind : MBind go := fun A B f m => go_bind f m.

(** [a % b]: panics when [b] is zero. *)
Definition int_rem (a b : Z) : go Z :=
  if b =? 0 then Panic IntegerDivideByZero else Ok (Z.rem a b).

(** ** Slices *)

Section Slices.
Context {T : Type}.

(** [make([]T, n)], every slot holding the zero value of [T]. *)
Definition make (zero : T) (n : Z) : go (list T) :=
  if n <? 0 then Panic MakeSliceLenOutOfRange
  else Ok (replicate (Z.to_nat n) zero).

(** [s[i] = x] *)
Definition index_set (s : list T) (i : Z) (x : T) : go (list T) :=
  if (0 <=? i) && (i <? Z.of_nat (length s))
  then Ok (<[Z.to_nat i := x]> s)
  else Panic IndexOutOfRange.

(** [s[:hi]] *)
Definition slice_to (s : list T) (hi : Z) : go (list T) :=
  if (0 <=? hi) && (hi <=? Z.of_nat (length s))
  then Ok (take (Z.to_nat hi) s)
  else Panic SliceBoundsOutOfRange.

(** [s[lo:]] *)
Definition slice_from (s : list T) (lo : Z) : go (list T) :=
  if (0 <=? lo) && (lo <=? Z.of_nat (length s))
  then Ok (drop (Z.to_nat lo) s)
  else Panic SliceBoundsOutOfRange.

(** [copy(dst, src)]: the first [min(len(dst), len(src))] slots of [dst]
    are overwritten; returns the new contents of [dst] and that number. *)
Definition copy (dst src : list T) : list T * Z :=
  let n := Nat.min (length dst) (length src) in
  (take n src ++ drop n dst, Z.of_nat n).
End Slices.

(** ** Ring buffer (runner/ringbuffer.go) *)

Record RingBuffer (T : Type) : Type := mkRingBuffer {
  rb_data : list T;
  rb_size : Z;
  rb_head : Z;
  rb_count : Z
}.

Arguments mkRingBuffer {T} _ _ _ _.
Arguments rb_data {T} _.
Arguments rb_size {T} _.
Arguments rb_head {T} _.
Arguments rb_count {T} _.

Section RingBufferOps.
Context {T : Type} (zero : T).

Definition NewRingBuffer (size : Z) : go (RingBuffer T) :=
  data ← make zero size;
  Ok {| rb_data := data; rb_size := size; rb_head := 0; rb_count := 0 |}.

Definition Push (rb : RingBuffer T) (item : T) : go (RingBuffer T) :=
  data ← index_set (rb_data rb) (rb_head rb) item;
  head ← int_rem (int_add (rb_head rb) 1) (rb_size rb);
  let count :=
    if rb_count rb <? rb_size rb then int_add (rb_count rb) 1
    else rb_count rb in
  Ok {| rb_data := data; rb_size := rb_size rb;
        rb_head := head; rb_count := count |}.

Definition ToSlice (rb : RingBuffer T) : go (list T) :=
  if rb_count rb =? 0 then Ok []
  else
    result ← make zero (rb_count rb);
    if rb_count rb <? rb_size rb then
      src ← slice_to (rb_data rb) (rb_count rb);
      Ok (fst (copy result src))
    else
      src1 ← slice_from (rb_data rb) (rb_head rb);
      let '(result, n) := copy result src1 in
      dst2 ← slice_from result n;
      src2 ← slice_to (rb_data rb) (rb_head rb);
      Ok (take (Z.to_nat n) result ++ fst (copy dst2 src2)).

Definition Len (rb : RingBuffer T) : Z := rb_count rb.

Definition Clear (rb : RingBuffer T) : RingBuffer T :=
  {| rb_data := replicate (length (rb_data rb)) zero;
     rb_size := rb_size rb; rb_head := 0; rb_count := 0 |}.

(** A sequence of pushes, first item first. *)
Fixpoint PushAll (rb : RingBuffer T) (items : list T) : go (RingBuffer T) :=
  match items with
  | [] => Ok rb
  | x :: items' => rb' ← Push rb x; PushAll rb' items'
  end.
End RingBufferOps.

(** ** Time (package time) *)

Definition Time : Type := Z.
Definition Duration : Type := Z.

Definition Second : Duration := 1000000000.
Definition Minute : Duration := 60 * Second.

(** [t.Sub(u)]: the difference, saturated to the range of a [Duration]. *)
Definition time_Sub (t u : Time) : Duration :=
  Z.max int_min (Z.min int_max (t - u)).

Definition time_Add (t : Time) (d : Duration) : Time := t + d.
Definition time_After (t u : Time) : bool := u <? t.
Definition time_Before (t u : Time) : bool := t <? u.

(** ** Events, results, channels (runner/process.go) *)

Definition StatusPending : string := "pending".
Definition StatusRunning : string := "running".
Definition StatusCompleted : string := "completed".
Definition StatusFailed : string := "failed".
Definition StatusStopped : string := "stopped".

(** [json.RawMessage]: a byte slice, [None] when nil. *)
Definition RawMessage : Type := option string.

Record Event : Type := mkEvent {
  Type_ : string;
  Data : RawMessage;
  Timestamp : Time
}.

(** The zero value of [Event], which fills the unused slots of a buffer. *)
Definition zeroEvent : Event :=
  {| Type_ := EmptyString; Data := None; Timestamp := 0 |}.

Record Result : Type := mkResult {
  ExitCode : Z;
  Output : RawMessage;
  Error : string
}.

(** A buffered [chan Event]: the events queued and not yet received, the
    capacity given to [make], and whether [close] was called. *)
Record Chan : Type := mkChan {
  ch_buf : list Event;
  ch_cap : nat;
  ch_closed : bool
}.

Definition make_chan (cap : nat) : Chan :=
  {| ch_buf := []; ch_cap := cap; ch_closed := false |}.

(** [select { case ch <- event: default: }] *)
Definition try_send (ch : Chan) (event : Event) : go Chan :=
  if ch_closed ch then Panic SendOnClosedChannel
  else if (length (ch_buf ch) <? ch_cap ch)%nat
  then Ok {| ch_buf := ch_buf ch ++ [event]; ch_cap := ch_cap ch;
             ch_closed := false |}
  else Ok ch.

(** [close(ch)] *)
Definition close_chan (ch : Chan) : go Chan :=
  if ch_closed ch then Panic CloseOfClosedChannel
  else Ok {| ch_buf := ch_buf ch; ch_cap := ch_cap ch; ch_closed := true |}.

(** [*exec.Cmd] as far as the runner looks at it: whether [cmd.Process] is
    set (the command was started) and whether it was sent a kill. *)
Record Cmd : Type := mkCmd {
  cmd_path : string;
  cmd_args : list string;
  cmd_dir : string;
  cmd_started : bool;
  cmd_killed : bool
}.

Definition cmd_Kill (c : Cmd) : Cmd :=
  {| cmd_path := cmd_path c; cmd_args := cmd_args c; cmd_dir := cmd_dir c;
     cmd_started := cmd_started c; cmd_killed := true |}.

(** ** Process (runner/process.go)

    [cancel] is [None] while the field is nil; [Some b] is the cancel
    function of a context that is cancelled iff [b]. [done] tells whether
    the done channel is closed. *)
Record Process : Type := mkProcess {
  ID : string;
  Connector : string;
  Prompt : string;
  WorkDir : string;
  Status : string;
  StartedAt : Time;
  CompletedAt : option Time;
  cmd : option Cmd;
  events : RingBuffer Event;
  result : option Result;
  subscribers : gmap string Chan;
  cancel : option bool;
  done : bool;
  resultData : RawMessage;
  resultExpiry : option Time
}.

Definition set_Status (v : string) (p : Process) : Process :=
  mkProcess (ID p) (Connector p) (Prompt p) (WorkDir p) v (StartedAt p)
    (CompletedAt p) (cmd p) (events p) (result p) (subscribers p) (cancel p)
    (done p) (resultData p) (resultExpiry p).

Definition set_CompletedAt (v : option Time) (p : Process) : Process :=
  mkProcess (ID p) (Connector p) (Prompt p) (WorkDir p) (Status p)
    (StartedAt p) v (cmd p) (events p) (result p) (subscribers p) (cancel p)
    (done p) (resultData p) (resultExpiry p).

Definition set_cmd (v : option Cmd) (p : Process) : Process :=
  mkProcess (ID p) (Connector p) (Prompt p) (WorkDir p) (Status p)
    (StartedAt p) (CompletedAt p) v (events p) (result p) (subscribers p)
    (cancel p) (done p) (resultData p) (resultExpiry p).

Definition set_events (v : RingBuffer Event) (p : Process) : Process :=
  mkProcess (ID p) (Connector p) (Prompt p) (WorkDir p) (Status p)
    (StartedAt p) (CompletedAt p) (cmd p) v (result p) (subscribers p)
    (cancel p) (done p) (resultData p) (resultExpiry p).

Definition set_result (v : option Result) (p : Process) : Process :=
  mkProcess (ID p) (Connector p) (Prompt p) (WorkDir p) (Status p)
    (StartedAt p) (CompletedAt p) (cmd p) (events p) v (subscribers p)
    (cancel p) (done p) (resultData p) (resultExpiry p).

Definition set_subscribers (v : gmap string Chan) (p : Process) : Process :=
  mkProcess (ID p) (Connector p) (Prompt p) (WorkDir p) (Status p)
    (StartedAt p) (CompletedAt p) (cmd p) (events p) (result p) v (cancel p)
    (done p) (resultData p) (resultExpiry p).

Definition set_cancel (v : option bool) (p : Process) : Process :=
  mkProcess (ID p) (Connector p) (Prompt p) (WorkDir p) (Status p)
    (StartedAt p) (CompletedAt p) (cmd p) (events p) (result p)
    (subscribers p) v (done p) (resultData p) (resultExpiry p).

Definition set_done (v : bool) (p : Process) : Process :=
  mkProcess (ID p) (Connector p) (Prompt p) (WorkDir p) (Status p)
    (StartedAt p) (CompletedAt p) (cmd p) (events p) (result p)
    (subscribers p) (cancel p) v (resultData p) (resultExpiry p).

Definition set_resultCache (d : RawMessage) (e : option Time) (p : Process)
  : Process :=
  mkProcess (ID p) (Connector p) (Prompt p) (WorkDir p) (Status p)
    (StartedAt p) (CompletedAt p) (cmd p) (events p) (result p)
    (subscribers p) (cancel p) (done p) d e.

Definition NewProcess (id connector prompt workDir : string)
    (bufferSize : Z) (now : Time) : go Process :=
  buf ← NewRingBuffer zeroEvent bufferSize;
  Ok {| ID := id; Connector := connector; Prompt := prompt;
        WorkDir := workDir; Status := StatusPending; StartedAt := now;
        CompletedAt := None; cmd := None; events := buf; result := None;
        subscribers := ∅; cancel := None; done := false;
        resultData := None; resultExpiry := None |}.

(** The fan-out loop of [AddEvent]: one non-blocking send per subscriber.
    The channels are shared objects, so the table keeps its keys and each
    entry sees its own channel after the send. *)
Definition fanout (event : Event) (subs : gmap string Chan)
  : go (gmap string Chan) :=
  map_fold
    (fun id ch acc => cur ← acc; ch' ← try_send ch event;
                      Ok (<[id := ch']> cur))
    (Ok subs) subs.

Definition AddEvent (p : Process) (event : Event) : go Process :=
  buf ← Push (events p) event;
  subs ← fanout event (subscribers p);
  Ok (set_subscribers subs (set_events buf p)).

Definition Subscribe (p : Process) (subscriberID : string) : Process :=
  set_subscribers (<[subscriberID := make_chan 100]> (subscribers p)) p.

Definition Unsubscribe (p : Process) (subscriberID : string) : go Process :=
  match subscribers p !! subscriberID with
  | Some ch =>
      _ ← close_chan ch;
      Ok (set_subscribers (delete subscriberID (subscribers p)) p)
  | None => Ok p
  end.

Definition GetEvents (p : Process) : go (list Event) :=
  ToSlice zeroEvent (events p).

Definition SetStatus (p : Process) (status : string) : Process :=
  set_Status status p.

Definition SetResult (p : Process) (r : option Result) : Process :=
  set_result r p.

Definition GetResult (p : Process) : option Result := result p.

Definition Stop (p : Process) (now : Time) : Process :=
  let p := match cancel p with
           | Some _ => set_cancel (Some true) p
           | None => p
           end in
  let p := match cmd p with
           | Some c => if cmd_started c then set_cmd (Some (cmd_Kill c)) p
                       else p
           | None => p
           end in
  let p := if done p then p else set_done true p in
  if (Status p =? StatusPending)%string || (Status p =? StatusRunning)%string
  then set_CompletedAt (Some now) (set_Status StatusStopped p)
  else p.

(** The loop of [Close] over the subscribers: close, then delete. *)
Definition close_all (subs : gmap string Chan) : go (gmap string Chan) :=
  map_fold
    (fun id ch acc => cur ← acc; _ ← close_chan ch; Ok (delete id cur))
    (Ok subs) subs.

Definition Close (p : Process) (now : Time) : go Process :=
  let p := if done p then p else set_done true p in
  subs ← close_all (subscribers p);
  let p := set_subscribers subs p in
  Ok (match CompletedAt p with
      | None => set_CompletedAt (Some now) p
      | Some _ => p
      end).

Definition SetResultData (p : Process) (data : RawMessage) (now : Time)
  : Process :=
  set_resultCache data (Some (time_Add now (10 * Minute))) p.

Definition GetResultData (p : Process) (now : Time) : RawMessage :=
  match resultExpiry p with
  | None => None
  | Some expiry => if time_After now expiry then None else resultData p
  end.

Definition HasValidResultData (p : Process) (now : Time) : bool :=
  match resultData p, resultExpiry p with
  | Some _, Some expiry => time_Before now expiry
  | _, _ => false
  end.

(** ** Configuration (config/config.go)

    Of [Config] the manager reads the [Process] section only; the server,
    connector and logging sections are left out. *)
Module config.
Record ProcessConfig : Type := mkProcessConfig {
  DefaultTimeout : Duration;
  MaxConcurrent : Z;
  CleanupDelay : Duration;
  BufferSize : Z
}.

Record ConnectorConfig : Type := mkConnectorConfig {
  Command : string;
  Args : list string;
  Available : bool
}.

Record Config : Type := mkConfig {
  Process : ProcessConfig
}.

(** The values of [setDefaults]. *)
Definition defaults : Config :=
  {| Process := {| DefaultTimeout := 5 * Minute; MaxConcurrent := 10;
                   CleanupDelay := 5 * Second; BufferSize := 8192 |} |}.
End config.

(** ** Manager (runner/manager.go)

    The table maps an id to a pointer in Go; here it maps the id to the
    state of the process it points to, and a method of the process called
    through the table updates the entry. *)

Inductive error : Type :=
  | ErrProcessNotFound
  | ErrMaxConcurrent
  | errors_New (msg : string).

Record Manager : Type := mkManager {
  processes : gmap string Process;
  mconfig : config.Config
}.

Definition NewManager (cfg : config.Config) : Manager :=
  {| processes := ∅; mconfig := cfg |}.

Definition max_concurrent (m : Manager) : Z :=
  config.MaxConcurrent (config.Process (mconfig m)).

Definition with_processes (ps : gmap string Process) (m : Manager) : Manager :=
  {| processes := ps; mconfig := mconfig m |}.

(** The counting loop shared by [Create] and [Count]. *)
Definition activeCount (ps : gmap string Process) : Z :=
  map_fold
    (fun _ p activeCount =>
       if (Status p =? StatusPending)%string || (Status p =? StatusRunning)%string
       then int_add activeCount 1 else activeCount)
    0 ps.

(** [id] is the UUID drawn by [uuid.New()], [now] the clock read by
    [NewProcess]. *)
Definition Manager_Create (m : Manager) (connector prompt workDir : string)
    (id : string) (now : Time)
  : go (Manager * (option Process * option error)) :=
  if activeCount (processes m) >=? max_concurrent m
  then Ok (m, (None, Some ErrMaxConcurrent))
  else
    process ← NewProcess id connector prompt workDir
                (config.BufferSize (config.Process (mconfig m))) now;
    Ok (with_processes (<[id := process]> (processes m)) m,
        (Some process, None)).

Definition Manager_Get (m : Manager) (id : string)
  : option Process * option error :=
  match processes m !! id with
  | Some process => (Some process, None)
  | None => (None, Some ErrProcessNotFound)
  end.

Definition Manager_List (m : Manager) : list Process :=
  snd <$> map_to_list (processes m).

Definition Manager_Stop (m : Manager) (id : string) (now : Time)
  : Manager * option error :=
  match processes m !! id with
  | Some process =>
      (with_processes (<[id := Stop process now]> (processes m)) m, None)
  | None => (m, Some ErrProcessNotFound)
  end.

Definition Manager_Remove (m : Manager) (id : string)
  : Manager * option error :=
  match processes m !! id with
  | None => (m, Some ErrProcessNotFound)
  | Some process =>
      if negb (Status process =? StatusCompleted)%string
         && negb (Status process =? StatusFailed)%string
         && negb (Status process =? StatusStopped)%string
      then (m, Some (errors_New "cannot remove active process"))
      else (with_processes (delete id (processes m)) m, None)
  end.

Definition Manager_Count (m : Manager) : Z := activeCount (processes m).

(** One iteration of the loop of [cleanup]; [acc] is the table as the
    deletions so far have left it. *)
Definition cleanup_entry (now : Time) (cleanupThreshold : Duration)
    (id : string) (process : Process) (acc : gmap string Process)
  : gmap string Process :=
  if negb (Status process =? StatusCompleted)%string
     && negb (Status process =? StatusFailed)%string
     && negb (Status process =? StatusStopped)%string
  then acc
  else
    match CompletedAt process with
    | Some completedAt =>
        let age := time_Sub now completedAt in
        if age >=? cleanupThreshold then delete id acc else acc
    | None => acc
    end.

Definition Manager_cleanup (m : Manager) (now : Time) : Manager :=
  let cleanupThreshold := config.CleanupDelay (config.Process (mconfig m)) in
  with_processes
    (map_fold (cleanup_entry now cleanupThreshold) (processes m) (processes m))
    m.

(** The instants at which a ticker of period [d] created at [start] has
    fired up to [now]: [start + d], [start + 2d], ... *)
Definition tick_times (start : Time) (d : Duration) (now : Time) : list Time :=
  (fun k => start + Z.of_nat k * d) <$> seq 1 (Z.to_nat ((now - start) / d)).

(** [StartCleanup] called at [start], observed at [now]: the goroutine has
    run [cleanup] once per tick, each at its tick instant, and nothing
    else has touched the table. [time.NewTicker] panics on a period that
    is not positive. *)
Definition Manager_StartCleanup (m : Manager) (start now : Time) : go Manager :=
  let d := config.CleanupDelay (config.Process (mconfig m)) in
  if d <=? 0 then Panic NonPositiveTickerInterval
  else Ok (foldl Manager_cleanup m (tick_times start d now)).

(** ** Connectors (runner/runner.go, connector/claude.go) *)

(** The [Connector] interface of the runner. [ParseLine] returns the pair
    [(event, err)] of the Go signature. *)
Record ConnectorI : Type := mkConnector {
  Name : string;
  BuildCommand : string -> Cmd;
  ParseLine : string -> option Event * option error
}.

(** A decoded JSON value ([interface{}] after [json.Unmarshal]). *)
#[local] Unset Elimination Schemes.
Inductive json : Type :=
  | JNull
  | JBool (b : bool)
  | JNumber (repr : string)
  | JString (s : string)
  | JArray (items : list json)
  | JObject (fields : list (string * json)).
#[local] Set Elimination Schemes.

Section Claude.
(** [strings.TrimSpace], and [json.Unmarshal] into a
    [map[string]interface{}] ([None] when it returns an error): library
    functions, taken as parameters. *)
Variable TrimSpace : string -> string.
Variable json_Unmarshal : string -> option (gmap string json).
Variable cfg : config.ConnectorConfig.

Definition Claude_Name : string := "claude".

Definition Claude_IsAvailable : bool := config.Available cfg.

Definition Claude_BuildCommand (prompt : string) : Cmd :=
  {| cmd_path := config.Command cfg;
     cmd_args := config.Command cfg :: (config.Args cfg ++ ["-p"; prompt]);
     cmd_dir := EmptyString; cmd_started := false; cmd_killed := false |}.

Definition Claude_ParseLine (line : string) : option Event * option error :=
  let line := TrimSpace line in
  if (line =? EmptyString)%string then (None, None)
  else
    match json_Unmarshal line with
    | None => (None, None)
    | Some rawJSON =>
        let eventType :=
          match rawJSON !! "type" with
          | Some (JString typeField) =>
              if (typeField =? "result")%string then "result" else "stream"
          | _ => "stream"
          end in
        (Some {| Type_ := eventType; Data := Some line; Timestamp := 0 |},
         None)
    end.

Definition ClaudeConnector : ConnectorI :=
  {| Name := Claude_Name; BuildCommand := Claude_BuildCommand;
     ParseLine := Claude_ParseLine |}.
End Claude.

(** ** Runner (runner/runner.go) *)

(** What [cmd.Wait] can return besides nil. *)
Inductive cmd_error : Type :=
  | ExitError (code : Z) (msg : string)
  | OtherError (msg : string).

Definition getExitCode (err : cmd_error) : Z :=
  match err with
  | ExitError code _ => code
  | OtherError _ => 1
  end.

Definition cmd_error_Error (err : cmd_error) : string :=
  match err with
  | ExitError _ msg => msg
  | OtherError msg => msg
  end.

(** The case of the [select] in [run] that fired. *)
Inductive selected : Type :=
  | CtxDone
  | CmdDone (cmdErr : option cmd_error).

Section Runner.
(** [json.Marshal] of the payload of an error event and of a done event
    (process id, status, result): library function, taken as parameters. *)
Variable marshal_error : string -> string.
Variable marshal_done : string -> string -> option Result -> string.

(** [Spawn] on a process and a connector that are not nil (the two nil
    checks return an error before anything is touched): the status
    becomes running and the cancel function of a fresh context is
    stored. *)
Definition Spawn (process : Process) : Process :=
  let process := SetStatus process StatusRunning in
  set_cancel (Some false) process.

Definition sendErrorEvent (process : Process) (errorMsg : string)
    (now : Time) : go Process :=
  AddEvent process
    {| Type_ := "error"; Data := Some (marshal_error errorMsg);
       Timestamp := now |}.

Definition sendDoneEvent (process : Process) (now : Time) : go Process :=
  let result := GetResult process in
  AddEvent process
    {| Type_ := "done";
       Data := Some (marshal_done (ID process) (Status process) result);
       Timestamp := now |}.

Definition handleError (process : Process) (err : string)
    (now1 now2 now3 : Time) : go Process :=
  let process := SetStatus process StatusFailed in
  let process :=
    SetResult process
      (Some {| ExitCode := 1; Output := None; Error := err |}) in
  process ← sendErrorEvent process err now1;
  process ← sendDoneEvent process now2;
  Close process now3.

(** [run] up to the launch: build the command, set its directory, store
    it on the process. *)
Definition run_build (c : ConnectorI) (process : Process) : Process :=
  let cmd := BuildCommand c (Prompt process) in
  let cmd :=
    if (WorkDir process =? EmptyString)%string then cmd
    else {| cmd_path := cmd_path cmd; cmd_args := cmd_args cmd;
            cmd_dir := WorkDir process; cmd_started := cmd_started cmd;
            cmd_killed := cmd_killed cmd |} in
  set_cmd (Some cmd) process.

(** The body of the loop of [streamOutput] for one line; [now1] stamps
    the event, [now2] is the clock read by [SetResultData]. *)
Definition stream_line (c : ConnectorI) (process : Process) (line : string)
    (now1 now2 : Time) : go Process :=
  match ParseLine c line with
  | (_, Some _) => Ok process
  | (None, None) => Ok process
  | (Some event, None) =>
      let event := {| Type_ := Type_ event; Data := Data event;
                      Timestamp := now1 |} in
      process ← AddEvent process event;
      if (Type_ event =? "result")%string
      then Ok (SetResultData process (Data event) now2)
      else Ok process
  end.

Fixpoint streamOutput (c : ConnectorI) (process : Process)
    (lines : list (string * Time * Time)) : go Process :=
  match lines with
  | [] => Ok process
  | (line, now1, now2) :: rest =>
      process ← stream_line c process line now1 now2;
      streamOutput c process rest
  end.

(** The two cases of the [select] of [run]. *)
Definition run_select (process : Process) (sel : selected) (now : Time)
  : go Process :=
  match sel with
  | CtxDone =>
      let process :=
        match cmd process with
        | Some c => if cmd_started c
                    then set_cmd (Some (cmd_Kill c)) process else process
        | None => process
        end in
      let process := SetStatus process StatusStopped in
      sendErrorEvent process "Process stopped or timed out" now
  | CmdDone (Some cmdErr) =>
      let exitCode := getExitCode cmdErr in
      let process := SetStatus process StatusFailed in
      let process :=
        SetResult process
          (Some {| ExitCode := exitCode; Output := None;
                   Error := cmd_error_Error cmdErr |}) in
      sendErrorEvent process (cmd_error_Error cmdErr) now
  | CmdDone None =>
      let process := SetStatus process StatusCompleted in
      Ok (SetResult process
            (Some {| ExitCode := 0; Output := None; Error := EmptyString |}))
  end.

(** The end of [run]: the done event, then [Close]. *)
Definition run_finish (process : Process) (now1 now2 : Time) : go Process :=
  process ← sendDoneEvent process now1;
  Close process now2.

(** The steps that act on one process: those of the runner working with
    connector [c], and those of the request handlers. *)
Inductive action : Type :=
  | ActSpawn
  | ActBuild
  | ActStarted
  | ActLine (line : string) (now1 now2 : Time)
  | ActHandleError (err : string) (now1 now2 now3 : Time)
  | ActSelect (sel : selected) (now : Time)
  | ActFinish (now1 now2 : Time)
  | ActSubscribe (subscriberID : string)
  | ActUnsubscribe (subscriberID : string)
  | ActStop (now : Time).

Definition cmd_Start (process : Process) : Process :=
  match cmd process with
  | Some c =>
      set_cmd (Some {| cmd_path := cmd_path c; cmd_args := cmd_args c;
                       cmd_dir := cmd_dir c; cmd_started := true;
                       cmd_killed := cmd_killed c |}) process
  | None => process
  end.

Definition step (c : ConnectorI) (process : Process) (a : action)
  : go Process :=
  match a with
  | ActSpawn => Ok (Spawn process)
  | ActBuild => Ok (run_build c process)
  | ActStarted => Ok (cmd_Start process)
  | ActLine line now1 now2 => stream_line c process line now1 now2
  | ActHandleError err now1 now2 now3 =>
      handleError process err now1 now2 now3
  | ActSelect sel now => run_select process sel now
  | ActFinish now1 now2 => run_finish process now1 now2
  | ActSubscribe id => Ok (Subscribe process id)
  | ActUnsubscribe id => Unsubscribe process id
  | ActStop now => Ok (Stop process now)
  end.

Fixpoint exec (c : ConnectorI) (process : Process) (acts : list action)
  : go Process :=
  match acts with
  | [] => Ok process
  | a :: rest => process ← step c process a; exec c process rest
  end.
End Runner.

(** ** Representation invariant of the ring buffer *)

(** The last [c] items of a history (all of it when shorter). *)
Definition window {T : Type} (c : nat) (xs : list T) : list T :=
  drop (length xs - c)%nat xs.

(** [rb_repr zero c xs rb]: [rb] is a buffer of capacity [c] into which
    the items [xs] were pushed, oldest first. *)
Definition rb_repr {T : Type} (zero : T) (c : nat) (xs : list T)
    (rb : RingBuffer T) : Prop :=
  rb_size rb = Z.of_nat c /\ length (rb_data rb) = c /\
  if decide (length xs < c)%nat then
    rb_head rb = Z.of_nat (length xs) /\
    rb_count rb = Z.of_nat (length xs) /\
    rb_data rb = xs ++ replicate (c - length xs)%nat zero
  else
    exists h : nat,
      (h < c)%nat /\ rb_head rb = Z.of_nat h /\
      rb_count rb = Z.of_nat c /\
      rb_data rb = drop (c - h)%nat (window c xs) ++ take (c - h)%nat (window c xs).

(** ** Fan-out, per subscriber *)

(** What a non-blocking send does to one open channel: the event is
    queued when there is room and dropped otherwise. *)
Definition deliver (event : Event) (ch : Chan) : Chan :=
  if (length (ch_buf ch) <? ch_cap ch)%nat
  then {| ch_buf := ch_buf ch ++ [event]; ch_cap := ch_cap ch;
          ch_closed := false |}
  else ch.

(** No channel of the table is closed: [Unsubscribe] and [Close] delete a
    channel in the critical section that closes it. *)
Definition subs_open (subs : gmap string Chan) : Prop :=
  forall id ch, subs !! id = Some ch -> ch_closed ch = false.

(** ** Status classes *)

Definition is_active (p : Process) : bool :=
  (Status p =? StatusPending)%string || (Status p =? StatusRunning)%string.

Definition is_terminal (p : Process) : bool :=
  (Status p =? StatusCompleted)%string || (Status p =? StatusFailed)%string
  || (Status p =? StatusStopped)%string.

(** The number of jobs of a table whose status is pending or running. *)
Definition num_active (ps : gmap string Process) : nat :=
  size (filter (fun kv => is_active kv.2 = true) ps).

(** ** Sample data *)

(** The process [NewProcess "job-1" "claude" "hello" EmptyString 4 0] returns. *)
Definition sampleProcess : Process :=
  {| ID := "job-1"; Connector := "claude"; Prompt := "hello"; WorkDir := EmptyString;
     Status := StatusPending; StartedAt := 0; CompletedAt := None;
     cmd := None;
     events := {| rb_data := replicate 4 zeroEvent; rb_size := 4;
                  rb_head := 0; rb_count := 0 |};
     result := None; subscribers := ∅; cancel := None; done := false;
     resultData := None; resultExpiry := None |}.

Definition sampleEvent : Event :=
  {| Type_ := "stream"; Data := Some "{}"; Timestamp := 1 |}.

(** A subscriber that never reads: its channel of capacity 100 is full. *)
Definition fullChan : Chan :=
  {| ch_buf := replicate 100 sampleEvent; ch_cap := 100; ch_closed := false |}.

(** [sampleProcess] with a subscriber that keeps up and one that is full. *)
Definition sampleAudience : Process :=
  set_subscribers (<["fast" := make_chan 100]> (<["slow" := fullChan]> ∅))
    sampleProcess.

(** ** Event kinds *)

(** The kinds the code gives to events (the comment on [Event.Type]). *)
Definition code_kinds : list string := ["stream"; "result"; "error"; "done"].

(** The kinds the specification lists. *)
Definition spec_kinds : list string := ["output"; "result"; "error"; "done"].

Definition kind_ok (e : Event) : Prop := Type_ e ∈ code_kinds.

(** [rb_hist hist rb]: [rb] is a buffer as [NewRingBuffer] and [Push] make
    them, of capacity 0 (and then empty for ever) or of capacity at least
    1, and [hist] is what was pushed into it. *)
Definition rb_hist (hist : list Event) (rb : RingBuffer Event) : Prop :=
  (rb_size rb = 0 /\ rb_count rb = 0 /\ hist = []) \/
  (exists c : nat, (1 <= c)%nat /\ Z.of_nat c <= int_max /\
                   rb_repr zeroEvent c hist rb).

(** The invariant of a process under the steps of [action]. *)
Definition proc_inv (p : Process) : Prop :=
  (exists hist, rb_hist hist (events p) /\ Forall kind_ok hist) /\
  subs_open (subscribers p) /\
  (forall id ch, subscribers p !! id = Some ch -> Forall kind_ok (ch_buf ch)).

(** ** Stand-ins for the library functions, for closed examples *)

(** [strings.TrimSpace] on ASCII text. *)
Fixpoint trim_left (s : string) : string :=
  match s with
  | String a s' => if Ascii.is_space a then trim_left s' else s
  | EmptyString => EmptyString
  end.

Definition sample_TrimSpace (s : string) : string :=
  String.rev (trim_left (String.rev (trim_left s))).

(** [json.Unmarshal] restricted to the line [{}], on which it returns the
    empty object; every other line is reported as not decodable. *)
Definition sample_Unmarshal (line : string) : option (gmap string json) :=
  if (line =? "{}")%string then Some ∅ else None.

Definition sampleConnectorConfig : config.ConnectorConfig :=
  {| config.Command := "claude"; config.Args := []; config.Available := true |}.

Definition sampleClaude : ConnectorI :=
  ClaudeConnector sample_TrimSpace sample_Unmarshal sampleConnectorConfig.

(** Stand-ins for [json.Marshal] of the error and done payloads. *)
Definition sample_marshal_error (msg : string) : string := msg.
Definition sample_marshal_done (id status : string) (r : option Result)
  : string := status.

(** A complete run: a reader subscribes, the job is spawned and started,
    prints the line [{}], exits with code 0, and the runner finishes. *)
Definition sampleRun : list action :=
  [ActSubscribe "reader"; ActSpawn; ActBuild; ActStarted;
   ActLine "{}" 1 2; ActSelect (CmdDone None) 3; ActFinish 4 5].

(** ** Sequences of create calls *)

(** The arguments of one call of [Create], with the UUID and the clock
    value the call draws. *)
Record create_call : Type := mkCall {
  call_connector : string;
  call_prompt : string;
  call_workDir : string;
  call_id : string;
  call_now : Time
}.

Definition create_one (m : Manager) (c : create_call)
  : go (Manager * (option Process * option error)) :=
  Manager_Create m (call_connector c) (call_prompt c) (call_workDir c)
    (call_id c) (call_now c).

(** The calls run one after the other (the mutex of the manager orders
    concurrent calls); a refused call leaves the manager as it is. *)
Fixpoint create_all (m : Manager) (calls : list create_call) : go Manager :=
  match calls with
  | [] => Ok m
  | c :: rest => r ← create_one m c; create_all r.1 rest
  end.

(** ** The sweep, per job *)

(** [swept T now p]: the status of [p] is terminal and its completion
    time lies at least [T] before [now]. *)
Definition swept (T : Duration) (now : Time) (p : Process) : bool :=
  is_terminal p &&
  match CompletedAt p with
  | Some t => t + T <=? now
  | None => false
  end.

Definition cleanup_delay (m : Manager) : Duration :=
  config.CleanupDelay (config.Process (mconfig m)).

(** A configuration with a ceiling of 2 jobs and a cleanup interval of 10
    seconds, and a manager under it that holds one job, stopped at 5 s. *)
Definition sampleConfig : config.Config :=
  {| config.Process :=
       {| config.DefaultTimeout := 5 * Minute; config.MaxConcurrent := 2;
          config.CleanupDelay := 10 * Second; config.BufferSize := 4 |} |}.

Definition stoppedJob : Process := Stop sampleProcess (5 * Second).

Definition sampleManager : Manager :=
  {| processes := <["job-1" := stoppedJob]> ∅; mconfig := sampleConfig |}.

(** ** Sequences of events *)

(** A sequence of [AddEvent], first event first, with no receive on any
    subscriber channel in between. *)
Fixpoint AddEvents (p : Process) (es : list Event) : go Process :=
  match es with
  | [] => Ok p
  | e :: rest => p' ← AddEvent p e; AddEvents p' rest
  end.

(** ** The receive ends of the subscriber channels

    [Subscribe] returns the channel it stores to its caller: the channel is
    one object, held by the table of the process and by the subscriber.
    [Close] closes each channel and deletes it from the table, so what it
    did to a channel shows at the subscriber's end only. [Close_recv] is
    [Close] returning, beside the process, the channels it closed, as
    their subscribers find them once it has returned; [handleError_recv]
    and [run_cmdDone] do the same for the two places of the runner that
    end in [Close]. *)
Definition close_all_recv (subs : gmap string Chan)
  : go (gmap string Chan * gmap string Chan) :=
  map_fold
    (fun id ch acc =>
       st ← acc; ch' ← close_chan ch;
       Ok (delete id st.1, <[id := ch']> st.2))
    (Ok (subs, ∅)) subs.

Definition Close_recv (p : Process) (now : Time)
  : go (Process * gmap string Chan) :=
  let p := if done p then p else set_done true p in
  st ← close_all_recv (subscribers p);
  let p := set_subscribers st.1 p in
  Ok (match CompletedAt p with
      | None => set_CompletedAt (Some now) p
      | Some _ => p
      end, st.2).

Definition handleError_recv (marshal_error : string -> string)
    (marshal_done : string -> string -> option Result -> string)
    (process : Process) (err : string) (now1 now2 now3 : Time)
  : go (Process * gmap string Chan) :=
  let process := SetStatus process StatusFailed in
  let process :=
    SetResult process
      (Some {| ExitCode := 1; Output := None; Error := err |}) in
  process ← sendErrorEvent marshal_error process err now1;
  process ← sendDoneEvent marshal_done process now2;
  Close_recv process now3.

(** [run] once the command has ended before the context was done: the
    [cmdDone] case of the [select], past its wait for the line reader
    ([<-streamDone], so the reader appends nothing any more), then the done
    event and [Close]. The [ctx.Done] case does not wait for the reader
    and is not covered. *)
Definition run_cmdDone (marshal_error : string -> string)
    (marshal_done : string -> string -> option Result -> string)
    (process : Process) (cmdErr : option cmd_error) (now1 now2 now3 : Time)
  : go (Process * gmap string Chan) :=
  process ← run_select marshal_error process (CmdDone cmdErr) now1;
  process ← sendDoneEvent marshal_done process now2;
  Close_recv process now3.

(** What [close] makes of an open channel. *)
Definition chan_closed (ch : Chan) : Chan :=
  {| ch_buf := ch_buf ch; ch_cap := ch_cap ch; ch_closed := true |}.

(** ** The line reader, line by line *)

(** The event [streamOutput] appends for one line, if any: the event of
    the parser, stamped with the clock read after parsing. *)
Definition line_event (c : ConnectorI) (l : string * Time * Time)
  : option Event :=
  match ParseLine c l.1.1 with
  | (Some event, None) =>
      Some {| Type_ := Type_ event; Data := Data event; Timestamp := l.1.2 |}
  | _ => None
  end.

(** The write to the result cache that one line causes, if any: the
    payload and the clock read by [SetResultData]. *)
Definition line_cache_write (c : ConnectorI) (l : string * Time * Time)
  : option (RawMessage * Time) :=
  match line_event c l with
  | Some event =>
      if (Type_ event =? "result")%string then Some (Data event, l.2) else None
  | None => None
  end.

(** The condition under which one iteration of [cleanup] deletes the
    entry, as the code tests it. *)
Definition cleanup_deletes (now : Time) (cleanupThreshold : Duration)
    (process : Process) : bool :=
  negb (negb (Status process =? StatusCompleted)%string
        && negb (Status process =? StatusFailed)%string
        && negb (Status process =? StatusStopped)%string)
  && match CompletedAt process with
     | Some completedAt => time_Sub now completedAt >=? cleanupThreshold
     | None => false
     end.

(** ** Connector registry (connector/registry.go) *)

Module connector.
Inductive error : Type :=
  | ErrConnectorNotFound
  | ErrConnectorUnavailable.

(** The [Connector] interface of the package: the three methods of the
    runner's interface, and [IsAvailable]. *)
Record Connector : Type := mkConnector {
  runner_Connector : ConnectorI;
  IsAvailable : bool
}.

Definition Name (c : Connector) : string := Name (runner_Connector c).

Record Registry : Type := mkRegistry {
  connectors : gmap string Connector
}.

Definition NewRegistry : Registry := {| connectors := ∅ |}.

Definition Register (r : Registry) (c : Connector) : Registry :=
  {| connectors := <[Name c := c]> (connectors r) |}.

Definition Get (r : Registry) (name : string)
  : option Connector * option error :=
  match connectors r !! name with
  | None => (None, Some ErrConnectorNotFound)
  | Some c =>
      if negb (IsAvailable c) then (None, Some ErrConnectorUnavailable)
      else (Some c, None)
  end.

(** The names in the order the iteration over the map yields them. *)
Definition List (r : Registry) : list string :=
  (map_to_list (connectors r)).*1.

Definition Available (r : Registry) : list string :=
  omap (fun kv : string * Connector =>
          if IsAvailable kv.2 then Some kv.1 else None)
       (map_to_list (connectors r)).

(** [NewClaudeConnector], with the two library functions the Claude
    parser is built on. *)
Definition NewClaudeConnector (TrimSpace : string -> string)
    (json_Unmarshal : string -> option (gmap string json))
    (cfg : config.ConnectorConfig) : Connector :=
  {| runner_Connector := ClaudeConnector TrimSpace json_Unmarshal cfg;
     IsAvailable := Claude_IsAvailable cfg |}.

(** [SetupFromConfig]; [claude] is [cfg.Connectors.Claude], the one part
    of the configuration it reads. *)
Definition SetupFromConfig (TrimSpace : string -> string)
    (json_Unmarshal : string -> option (gmap string json))
    (r : Registry) (claude : config.ConnectorConfig) : Registry :=
  Register r (NewClaudeConnector TrimSpace json_Unmarshal claude).
End connector.

(** ** More sample data *)

(** [sampleProcess] once spawned, with one reader subscribed. *)
Definition sampleRunning : Process :=
  Subscribe (Spawn sampleProcess) "reader".

(** Three output lines: a blank one, and two times [{}]. *)
Definition sampleLines : list (string * Time * Time) :=
  [(" ", 1, 1); ("{}", 2, 2); ("{}", 3, 3)].

Definition sampleRegistry : connector.Registry :=
  connector.SetupFromConfig sample_TrimSpace sample_Unmarshal
    connector.NewRegistry sampleConnectorConfig.

(** A manager at its ceiling of 2: two jobs created, both pending. *)
Definition fullManager : Manager :=
  match create_all (NewManager sampleConfig)
          [mkCall "claude" "a" "/tmp" "id-1" 1;
           mkCall "claude" "b" "/tmp" "id-2" 2] with
  | Ok m => m
  | Panic _ => NewManager sampleConfig
  end.

(** * Properties *)

(** ** Ring buffer *)

Lemma int_wrap_id z : int_min <= z <= int_max -> int_wrap z = z.
Proof.
  unfold int_min, int_max, int_wrap. intros H.
  rewrite Z.mod_small; lia.
Qed.

Lemma int_add_id a b : int_min <= a + b <= int_max -> int_add a b = a + b.
Proof. apply int_wrap_id. Qed.

Lemma window_length {T} c (xs : list T) : length (window c xs) = Nat.min c (length xs).
Proof. unfold window. rewrite length_drop. lia. Qed.

Lemma window_short {T} c (xs : list T) : (length xs <= c)%nat -> window c xs = xs.
Proof. intros H. unfold window. replace (length xs - c)%nat with 0%nat by lia. done. Qed.

Lemma window_snoc {T} c (xs : list T) x :
  (c <= length xs)%nat -> (1 <= c)%nat -> window c (xs ++ [x]) = drop 1 (window c xs) ++ [x].
Proof.
  intros H H1. unfold window. rewrite length_app. simpl.
  rewrite drop_drop. rewrite drop_app_le by lia. f_equal. f_equal. lia.
Qed.

Section RB.
Context {T : Type} (zero : T).

Lemma rb_repr_new c :
  1 <= c -> exists rb, NewRingBuffer zero c = Ok rb /\ rb_repr zero (Z.to_nat c) [] rb.
Proof.
  intros Hc. unfold NewRingBuffer, make.
  destruct (Z.ltb_spec c 0); [lia|]. eexists; split; [reflexivity|].
  unfold rb_repr; simpl. rewrite length_replicate. split; [lia|]. split; [done|].
  case_decide; [|lia].
  repeat split. f_equal. lia.
Qed.

Lemma rotate_push (W : list T) (c h : nat) x :
  length W = c -> (h < c)%nat ->
  <[h := x]> (drop (c - h)%nat W ++ take (c - h)%nat W) =
  let h' := if decide (S h < c)%nat then S h else 0%nat in
  drop (c - h')%nat (drop 1 W ++ [x]) ++ take (c - h')%nat (drop 1 W ++ [x]).
Proof.
  intros HW Hh.
  rewrite insert_app_r_alt by (rewrite length_drop; lia).
  rewrite length_drop, HW. replace (h - (c - (c - h)))%nat with 0%nat by lia.
  destruct (take (c - h)%nat W) as [|y tl] eqn:E.
  { apply (f_equal length) in E. rewrite length_take in E. simpl in E. lia. }
  simpl.
  assert (Htl : tl = take (c - h - 1)%nat (drop 1 W)).
  { rewrite take_drop_commute. replace (1 + (c - h - 1))%nat with (c - h)%nat by lia.
    rewrite E. done. }
  case_decide; simpl.
  - rewrite drop_app_le by (rewrite length_drop; lia).
    rewrite drop_drop. rewrite take_app_le by (rewrite length_drop; lia).
    replace (1 + (c - S h))%nat with (c - h)%nat by lia.
    rewrite <- app_assoc. simpl. rewrite Htl.
    replace (c - S h)%nat with (c - h - 1)%nat by lia. done.
  - assert (h = (c - 1)%nat) by lia. subst h.
    replace (c - (c - 1))%nat with 1%nat in * by lia.
    rewrite Nat.sub_0_r.
    rewrite (drop_ge (drop 1 W ++ [x])) by (rewrite length_app, length_drop; simpl; lia).
    rewrite (take_ge (drop 1 W ++ [x])) by (rewrite length_app, length_drop; simpl; lia).
    simpl in Htl. subst tl. done.
Qed.

Lemma Push_repr c xs rb x :
  (1 <= c)%nat -> Z.of_nat c <= int_max ->
  rb_repr zero c xs rb ->
  exists rb', Push rb x = Ok rb' /\ rb_repr zero c (xs ++ [x]) rb'.
Proof.
  intros Hc Hmax (Hsize & Hlen & H).
  assert (Hmin : int_min < 0) by (unfold int_min; lia).
  unfold Push, index_set, int_rem. rewrite Hsize, Hlen.
  case_decide as Hn.
  - destruct H as (Hhead & Hcount & Hdata). rewrite Hhead, Hcount.
    destruct (Z.leb_spec 0 (Z.of_nat (length xs))); [|lia].
    destruct (Z.ltb_spec (Z.of_nat (length xs)) (Z.of_nat c)); [|lia].
    destruct (Z.eqb_spec (Z.of_nat c) 0); [lia|]. simpl.
    rewrite !int_add_id by lia.
    eexists; split; [reflexivity|].
    unfold rb_repr; simpl. rewrite length_insert, Hlen.
    split; [done|]. split; [done|].
    rewrite Nat2Z.id, Hdata.
    rewrite insert_app_r_alt by lia. rewrite Nat.sub_diag.
    destruct (c - length xs)%nat as [|k] eqn:Ek; [lia|]. simpl.
    rewrite length_app. simpl.
    case_decide as Hn'.
    + rewrite Z.rem_small by lia. repeat split; try lia.
      rewrite <- app_assoc. simpl. do 3 f_equal. lia.
    + assert (Hfull : (length xs + 1 = c)%nat) by lia.
      exists 0%nat. rewrite Nat.sub_0_r.
      replace (Z.of_nat (length xs) + 1) with (Z.of_nat c) by lia.
      rewrite Z.rem_same by lia.
      repeat split; try lia.
      rewrite window_short by (rewrite length_app; simpl; lia).
      rewrite drop_ge by (rewrite length_app; simpl; lia).
      rewrite take_ge by (rewrite length_app; simpl; lia).
      assert (k = 0%nat) by lia. subst k. done.
  - destruct H as (h & Hh & Hhead & Hcount & Hdata). rewrite Hhead, Hcount.
    destruct (Z.leb_spec 0 (Z.of_nat h)); [|lia].
    destruct (Z.ltb_spec (Z.of_nat h) (Z.of_nat c)); [|lia].
    destruct (Z.eqb_spec (Z.of_nat c) 0); [lia|]. simpl.
    rewrite Z.ltb_irrefl. rewrite int_add_id by lia.
    eexists; split; [reflexivity|].
    unfold rb_repr; simpl. rewrite length_insert, Hlen.
    split; [done|]. split; [done|].
    rewrite length_app. simpl. case_decide; [lia|].
    rewrite Nat2Z.id, Hdata.
    rewrite rotate_push by (rewrite ?window_length; lia).
    rewrite window_snoc by lia. simpl.
    case_decide.
    + exists (S h). rewrite Z.rem_small by lia. repeat split; try lia. 
    + exists 0%nat. replace (Z.of_nat h + 1) with (Z.of_nat c) by lia.
      rewrite Z.rem_same by lia. repeat split; try lia.
Qed.

Lemma PushAll_repr c xs ys rb :
  (1 <= c)%nat -> Z.of_nat c <= int_max ->
  rb_repr zero c xs rb ->
  exists rb', PushAll rb ys = Ok rb' /\ rb_repr zero c (xs ++ ys) rb'.
Proof.
  intros Hc Hmax. revert xs rb.
  induction ys as [|y ys IH]; intros xs rb H.
  - exists rb. rewrite app_nil_r. done.
  - destruct (Push_repr c xs rb y Hc Hmax H) as (rb1 & E1 & H1).
    destruct (IH _ _ H1) as (rb2 & E2 & H2).
    exists rb2. simpl. rewrite E1. simpl. split; [exact E2|].
    rewrite <- app_assoc in H2. exact H2.
Qed.

Lemma ToSlice_repr c xs rb :
  (1 <= c)%nat -> Z.of_nat c <= int_max ->
  rb_repr zero c xs rb -> ToSlice zero rb = Ok (window c xs).
Proof.
  intros Hc Hmax (Hsize & Hlen & H).
  unfold ToSlice, make, slice_to, slice_from, copy. rewrite Hsize, Hlen.
  case_decide as Hn.
  - destruct H as (Hhead & Hcount & Hdata). rewrite Hcount.
    rewrite window_short by lia.
    destruct (Z.eqb_spec (Z.of_nat (length xs)) 0) as [E|E].
    { destruct xs; [done|simpl in E; lia]. }
    destruct (Z.ltb_spec (Z.of_nat (length xs)) 0); [lia|].
    destruct (Z.ltb_spec (Z.of_nat (length xs)) (Z.of_nat c)); [|lia].
    destruct (Z.leb_spec 0 (Z.of_nat (length xs))); [|lia].
    destruct (Z.leb_spec (Z.of_nat (length xs)) (Z.of_nat c)); [|lia].
    simpl. rewrite Nat2Z.id, Hdata. rewrite take_app_length.
    rewrite length_replicate, Nat.min_id. rewrite take_ge by lia.
    rewrite drop_ge by (rewrite length_replicate; lia). rewrite app_nil_r. done.
  - destruct H as (h & Hh & Hhead & Hcount & Hdata). rewrite Hhead, Hcount.
    assert (HW : length (window c xs) = c) by (rewrite window_length; lia).
    destruct (Z.eqb_spec (Z.of_nat c) 0); [lia|].
    destruct (Z.ltb_spec (Z.of_nat c) 0); [lia|].
    rewrite Z.ltb_irrefl.
    destruct (Z.leb_spec 0 (Z.of_nat h)); [|lia].
    destruct (Z.leb_spec (Z.of_nat h) (Z.of_nat c)); [|lia].
    simpl. rewrite !Nat2Z.id.
    assert (Hd : drop h (rb_data rb) = take (c - h)%nat (window c xs)).
    { rewrite Hdata. rewrite drop_app_length'; [done|]. rewrite length_drop. lia. }
    assert (Ht : take h (rb_data rb) = drop (c - h)%nat (window c xs)).
    { rewrite Hdata. rewrite take_app_length'; [done|]. rewrite length_drop. lia. }
    rewrite Hd, Ht.
    rewrite length_replicate, length_take, HW.
    replace (c `min` ((c - h) `min` c))%nat with (c - h)%nat by lia.
    rewrite (take_ge (take (c - h)%nat (window c xs))) by (rewrite length_take; lia).
    rewrite drop_replicate. replace (c - (c - h))%nat with h by lia.
    assert (Hl1 : length (take (c - h)%nat (window c xs)) = (c - h)%nat)
      by (rewrite length_take; lia).
    rewrite length_app, Hl1, length_replicate.
    destruct (Z.leb_spec 0 (Z.of_nat (c - h))); [|lia].
    destruct (Z.leb_spec (Z.of_nat (c - h)) (Z.of_nat (c - h + h))); [|lia].
    simpl.
    rewrite drop_app_length' by done.
    rewrite take_app_length' by done.
    rewrite length_replicate, length_drop, HW.
    replace (h `min` (c - (c - h)))%nat with h by lia.
    rewrite (take_ge (drop _ _)) by (rewrite length_drop; lia).
    rewrite (drop_ge (replicate h zero)) by (rewrite length_replicate; lia).
    rewrite app_nil_r. rewrite take_drop. done.
Qed.

Lemma rb_repr_Len c xs rb :
  rb_repr zero c xs rb -> Len rb = Z.of_nat (Nat.min c (length xs)).
Proof.
  intros (_ & _ & H). unfold Len. case_decide.
  - destruct H as (_ & -> & _). lia.
  - destruct H as (h & _ & _ & -> & _). lia.
Qed.
End RB.


(** C3. For a ring buffer of capacity c >= 1 (a Go int), created by
    NewRingBuffer: every sequence of pushes succeeds; after c + k pushes
    (k >= 0) ToSlice returns exactly c items, the last c pushed, oldest
    first (the items pushed without the first k); and one more push on a
    full buffer succeeds and turns the snapshot into the old one without
    its oldest item, followed by the new item. *)
Theorem ring_snapshot_last_capacity {T : Type} (zero : T) (c : Z) :
  1 <= c <= int_max ->
  exists rb0, NewRingBuffer zero c = Ok rb0 /\
    forall items : list T, exists rb,
      PushAll rb0 items = Ok rb /\
      (forall k : nat, length items = (Z.to_nat c + k)%nat ->
         ToSlice zero rb = Ok (drop k items) /\
         length (drop k items) = Z.to_nat c /\
         Len rb = c) /\
      (forall x : T, exists rb',
         Push rb x = Ok rb' /\
         ((Z.to_nat c <= length items)%nat ->
          exists old, ToSlice zero rb = Ok old /\
                      ToSlice zero rb' = Ok (drop 1 old ++ [x]))).
Proof.
  intros [Hc1 Hc2].
  destruct (rb_repr_new zero c Hc1) as (rb0 & E0 & H0).
  exists rb0. split; [exact E0|]. intros items.
  assert (Hn : (1 <= Z.to_nat c)%nat) by lia.
  assert (Hm : Z.of_nat (Z.to_nat c) <= int_max) by lia.
  destruct (PushAll_repr zero (Z.to_nat c) [] items rb0 Hn Hm H0) as (rb & E & H).
  simpl in H. exists rb. split; [exact E|]. split.
  - intros k Hk. rewrite (ToSlice_repr zero _ _ _ Hn Hm H).
    unfold window. replace (length items - Z.to_nat c)%nat with k by lia.
    split; [done|]. rewrite length_drop. split; [lia|].
    rewrite (rb_repr_Len zero _ _ _ H). lia.
  - intros x.
    destruct (Push_repr zero (Z.to_nat c) items rb x Hn Hm H) as (rb' & E' & H').
    exists rb'. split; [exact E'|]. intros Hfull.
    exists (window (Z.to_nat c) items).
    rewrite (ToSlice_repr zero _ _ _ Hn Hm H), (ToSlice_repr zero _ _ _ Hn Hm H').
    split; [done|]. by rewrite window_snoc.
Qed.

Lemma ring_snapshot_last_capacity_witness :
  1 <= 3 <= int_max /\
  exists rb0, NewRingBuffer 0%nat 3 = Ok rb0 /\
    forall items : list nat, exists rb,
      PushAll rb0 items = Ok rb /\
      (forall k : nat, length items = (Z.to_nat 3 + k)%nat ->
         ToSlice 0%nat rb = Ok (drop k items) /\
         length (drop k items) = Z.to_nat 3 /\
         Len rb = 3) /\
      (forall x : nat, exists rb',
         Push rb x = Ok rb' /\
         ((Z.to_nat 3 <= length items)%nat ->
          exists old, ToSlice 0%nat rb = Ok old /\
                      ToSlice 0%nat rb' = Ok (drop 1 old ++ [x]))).
Proof.
  assert (H : 1 <= 3 <= int_max) by (unfold int_max; lia).
  split; [exact H | exact (ring_snapshot_last_capacity 0%nat 3 H)].
Defined.

Example ring_demo :
  exists rb0 rb,
    NewRingBuffer 0%nat 3 = Ok rb0 /\
    PushAll rb0 [1; 2; 3; 4; 5]%nat = Ok rb /\
    ToSlice 0%nat rb = Ok [3; 4; 5]%nat.
Proof. do 2 eexists. repeat split. Qed.

Lemma Push_zero_size {T : Type} (rb : RingBuffer T) (x : T) :
  rb_size rb = 0 ->
  Push rb x = Panic IndexOutOfRange \/ Push rb x = Panic IntegerDivideByZero.
Proof.
  intros Hsz. unfold Push, index_set, int_rem. rewrite Hsz.
  destruct ((0 <=? rb_head rb) && (rb_head rb <? Z.of_nat (length (rb_data rb))));
    simpl; auto.
Qed.





(** ** Process: fan-out, stop, result cache, event kinds *)

Lemma try_send_open event ch :
  ch_closed ch = false -> try_send ch event = Ok (deliver event ch).
Proof. intros H. unfold try_send, deliver. rewrite H. by destruct (_ <? _)%nat. Qed.

Lemma deliver_open event ch : ch_closed ch = false -> ch_closed (deliver event ch) = false.
Proof. intros H. unfold deliver. by destruct (_ <? _)%nat. Qed.

Lemma fanout_from event (acc0 subs : gmap string Chan) :
  subs_open subs ->
  map_fold
    (fun id ch acc => cur ← acc; ch' ← try_send ch event; Ok (<[id := ch']> cur))
    (Ok acc0) subs
  = Ok ((deliver event <$> subs) ∪ acc0).
Proof.
  apply (map_fold_weak_ind
    (fun r m => subs_open m -> r = Ok ((deliver event <$> m) ∪ acc0))).
  - intros _. by rewrite fmap_empty, (left_id_L ∅ (∪)).
  - intros i x m r Hi IH Hopen.
    rewrite IH.
    + simpl. rewrite (try_send_open event x) by (apply (Hopen i); apply lookup_insert_eq).
      simpl. by rewrite fmap_insert, insert_union_l.
    + intros j ch Hj. apply (Hopen j). rewrite lookup_insert_ne; [done|]. congruence.
Qed.

Lemma fanout_open event subs :
  subs_open subs -> fanout event subs = Ok (deliver event <$> subs).
Proof.
  intros H. unfold fanout. rewrite fanout_from by done. f_equal.
  apply map_eq. intros i. rewrite lookup_union, lookup_fmap.
  by destruct (subs !! i).
Qed.

Lemma close_all_from (acc0 subs : gmap string Chan) :
  subs_open subs ->
  map_fold
    (fun id ch acc => cur ← acc; _ ← close_chan ch; Ok (delete id cur))
    (Ok acc0) subs
  = Ok (acc0 ∖ subs).
Proof.
  apply (map_fold_weak_ind
    (fun r m => subs_open m -> r = Ok (acc0 ∖ m))).
  - intros _. by rewrite (right_id_L ∅ (∖)).
  - intros i x m r Hi IH Hopen.
    rewrite IH.
    + simpl. unfold close_chan. rewrite (Hopen i x) by apply lookup_insert_eq.
      simpl. f_equal. apply map_eq. intros j.
      destruct (decide (i = j)) as [->|Hne].
      * rewrite lookup_delete_eq. symmetry. apply lookup_difference_None. right.
        rewrite lookup_insert_eq. eauto.
      * rewrite lookup_delete_ne by done.
        rewrite !lookup_difference. by rewrite lookup_insert_ne.
    + intros j ch Hj. apply (Hopen j). rewrite lookup_insert_ne; [done|]. congruence.
Qed.

Lemma close_all_open subs : subs_open subs -> close_all subs = Ok ∅.
Proof.
  intros H. unfold close_all. rewrite close_all_from by done. f_equal.
  apply map_eq. intros i. rewrite lookup_empty. apply lookup_difference_None.
  destruct (subs !! i); eauto.
Qed.

Lemma sampleProcess_new :
  NewProcess "job-1" "claude" "hello" EmptyString 4 0 = Ok sampleProcess.
Proof. reflexivity. Qed.

Lemma sampleProcess_repr : rb_repr zeroEvent 4 [] (events sampleProcess).
Proof.
  unfold rb_repr. simpl. done.
Qed.

Lemma deliver_buf event ch :
  (ch_buf (deliver event ch) = ch_buf ch ++ [event]
   <-> (length (ch_buf ch) < ch_cap ch)%nat) /\
  (~ (length (ch_buf ch) < ch_cap ch)%nat -> deliver event ch = ch).
Proof.
  unfold deliver. destruct (Nat.ltb_spec (length (ch_buf ch)) (ch_cap ch)); simpl.
  - split; [tauto|lia].
  - split; [|done]. split; [|lia]. intros E. apply (f_equal length) in E.
    rewrite length_app in E. simpl in E. lia.
Qed.

Lemma AddEvent_spec (p : Process) (event : Event) (c : nat) (hist : list Event) :
  (1 <= c)%nat -> Z.of_nat c <= int_max ->
  rb_repr zeroEvent c hist (events p) ->
  subs_open (subscribers p) ->
  exists buf,
    Push (events p) event = Ok buf /\
    rb_repr zeroEvent c (hist ++ [event]) buf /\
    AddEvent p event =
      Ok (set_subscribers (deliver event <$> subscribers p) (set_events buf p)).
Proof.
  intros Hc Hmax Hrepr Hopen.
  destruct (Push_repr zeroEvent c hist (events p) event Hc Hmax Hrepr) as (buf & E & H).
  exists buf. split; [done|]. split; [done|].
  unfold AddEvent. rewrite E. simpl. by rewrite fanout_open.
Qed.

(** C7. AddEvent returns (it has no blocking operation: the sends are
    non-blocking selects) on every process whose buffer has a capacity
    c >= 1 and whose subscriber channels are open: the event is pushed to
    the ring buffer, the set of subscribers is unchanged, and each
    subscriber's channel receives the event if and only if it has free
    capacity; a full channel is left exactly as it was, whatever the
    state of the other channels. Status, completion time and result are
    not touched. *)
Theorem AddEvent_nonblocking (p : Process) (event : Event) (c : nat)
    (hist : list Event) :
  (1 <= c)%nat -> Z.of_nat c <= int_max ->
  rb_repr zeroEvent c hist (events p) ->
  subs_open (subscribers p) ->
  exists p', AddEvent p event = Ok p' /\
    Push (events p) event = Ok (events p') /\
    GetEvents p' = Ok (window c (hist ++ [event])) /\
    dom (subscribers p') = dom (subscribers p) /\
    (forall id ch, subscribers p !! id = Some ch ->
       exists ch', subscribers p' !! id = Some ch' /\
         (ch_buf ch' = ch_buf ch ++ [event]
          <-> (length (ch_buf ch) < ch_cap ch)%nat) /\
         (~ (length (ch_buf ch) < ch_cap ch)%nat -> ch' = ch)) /\
    Status p' = Status p /\ CompletedAt p' = CompletedAt p /\
    result p' = result p.
Proof.
  intros Hc Hmax Hrepr Hopen.
  destruct (AddEvent_spec p event c hist Hc Hmax Hrepr Hopen) as (buf & E & H & EA).
  eexists. split; [exact EA|]. simpl. split; [done|]. split.
  { unfold GetEvents. simpl. by apply ToSlice_repr. }
  split; [apply dom_fmap_L|]. split; [|done].
  intros id ch Hid. exists (deliver event ch). split.
  { by rewrite lookup_fmap, Hid. }
  apply deliver_buf.
Qed.

Lemma sampleAudience_open : subs_open (subscribers sampleAudience).
Proof.
  intros id ch. simpl. rewrite lookup_insert. case_decide.
  { by intros [= <-]. }
  rewrite lookup_insert. case_decide.
  { by intros [= <-]. }
  by rewrite lookup_empty.
Qed.

Lemma AddEvent_nonblocking_witness :
  (1 <= 4)%nat /\ Z.of_nat 4 <= int_max /\
  rb_repr zeroEvent 4 [] (events sampleAudience) /\
  subs_open (subscribers sampleAudience) /\
  exists p', AddEvent sampleAudience sampleEvent = Ok p' /\
    Push (events sampleAudience) sampleEvent = Ok (events p') /\
    GetEvents p' = Ok (window 4 ([] ++ [sampleEvent])) /\
    dom (subscribers p') = dom (subscribers sampleAudience) /\
    (forall id ch, subscribers sampleAudience !! id = Some ch ->
       exists ch', subscribers p' !! id = Some ch' /\
         (ch_buf ch' = ch_buf ch ++ [sampleEvent]
          <-> (length (ch_buf ch) < ch_cap ch)%nat) /\
         (~ (length (ch_buf ch) < ch_cap ch)%nat -> ch' = ch)) /\
    Status p' = Status sampleAudience /\
    CompletedAt p' = CompletedAt sampleAudience /\
    result p' = result sampleAudience.
Proof.
  assert (H1 : (1 <= 4)%nat) by lia.
  assert (H2 : Z.of_nat 4 <= int_max) by (unfold int_max; lia).
  repeat (split; [first [exact H1 | exact H2 | exact sampleProcess_repr
                         | exact sampleAudience_open]|]).
  exact (AddEvent_nonblocking sampleAudience sampleEvent 4 [] H1 H2
           sampleProcess_repr sampleAudience_open).
Defined.

(** C7, counterexample. The claim has the event pushed to the ring buffer
    on every call. A buffer size of 0 is accepted by NewProcess, which
    returns a process; on that process every AddEvent panics in Push, the
    store into data[head] being out of range, before any subscriber is
    looked at. *)
Lemma AddEvent_zero_buffer_counterexample :
  (exists p, NewProcess "job-1" "claude" "hello" "/tmp" 0 0 = Ok p /\
     forall event, AddEvent p event = Panic IndexOutOfRange) /\
  ~ (forall (bufferSize : Z) (p : Process) (event : Event),
       0 <= bufferSize <= int_max ->
       NewProcess "job-1" "claude" "hello" "/tmp" bufferSize 0 = Ok p ->
       exists p', AddEvent p event = Ok p').
Proof.
  assert (E : forall event,
    AddEvent {| ID := "job-1"; Connector := "claude"; Prompt := "hello";
                WorkDir := "/tmp"; Status := StatusPending; StartedAt := 0;
                CompletedAt := None; cmd := None;
                events := mkRingBuffer [] 0 0 0; result := None;
                subscribers := ∅; cancel := None; done := false;
                resultData := None; resultExpiry := None |} event
    = Panic IndexOutOfRange) by reflexivity.
  split.
  - eexists. split; [reflexivity|]. exact E.
  - intros H.
    destruct (H 0 _ sampleEvent ltac:(unfold int_max; lia) eq_refl) as [p' Hp'].
    rewrite E in Hp'. discriminate Hp'.
Qed.

Example AddEvent_drops_for_full_only :
  exists p', AddEvent sampleAudience sampleEvent = Ok p' /\
    subscribers p' !! "slow" = Some fullChan /\
    (ch_buf <$> subscribers p' !! "fast") = Some [sampleEvent] /\
    GetEvents p' = Ok [sampleEvent].
Proof. eexists. split; [vm_compute; reflexivity|]. vm_compute. done. Qed.

(** *** Stop *)

Lemma Stop_status (p : Process) (now : Time) :
  Status (Stop p now) = if is_active p then StatusStopped else Status p.
Proof.
  unfold Stop, is_active. destruct p as [? ? ? ? st ? ? c ? ? ? cn d ? ?]. simpl.
  destruct cn, c as [[? ? ? [] ?]|], d; simpl;
    destruct ((st =? StatusPending)%string || (st =? StatusRunning)%string); done.
Qed.

Lemma Stop_completedAt (p : Process) (now : Time) :
  CompletedAt (Stop p now) = if is_active p then Some now else CompletedAt p.
Proof.
  unfold Stop, is_active. destruct p as [? ? ? ? st ? ? c ? ? ? cn d ? ?]. simpl.
  destruct cn, c as [[? ? ? [] ?]|], d; simpl;
    destruct ((st =? StatusPending)%string || (st =? StatusRunning)%string); done.
Qed.

Lemma Stop_done (p : Process) (now : Time) : done (Stop p now) = true.
Proof.
  unfold Stop. destruct p as [? ? ? ? st ? ? c ? ? ? cn d ? ?]. simpl.
  destruct cn, c as [[? ? ? [] ?]|], d; simpl;
    destruct ((st =? StatusPending)%string || (st =? StatusRunning)%string); done.
Qed.

Lemma Stop_Stop (p : Process) (now now' : Time) :
  Stop (Stop p now) now' = Stop p now.
Proof.
  unfold Stop. destruct p as [? ? ? ? st ? ? c ? ? ? cn d ? ?]. simpl.
  destruct cn, c as [[? ? ? [] ?]|], d; simpl;
    destruct ((st =? StatusPending)%string || (st =? StatusRunning)%string) eqn:E;
    simpl; rewrite ?E; done.
Qed.

Lemma is_active_iff (p : Process) :
  is_active p = true <-> Status p = StatusPending \/ Status p = StatusRunning.
Proof.
  unfold is_active. rewrite orb_true_iff, !String.eqb_eq. done.
Qed.

Lemma is_terminal_iff (p : Process) :
  is_terminal p = true <->
  Status p = StatusCompleted \/ Status p = StatusFailed \/ Status p = StatusStopped.
Proof.
  unfold is_terminal. rewrite !orb_true_iff, !String.eqb_eq. tauto.
Qed.

Lemma terminal_not_active (p : Process) : is_terminal p = true -> is_active p = false.
Proof.
  rewrite is_terminal_iff. unfold is_active. intros [-> | [-> | ->]]; reflexivity.
Qed.

(** C8. Stop on a job whose status is pending or running sets the status
    to stopped and completedAt to the instant of the call, and closes the
    done channel. A second Stop, at any later instant, leaves the whole
    job state as the first Stop left it: status, completedAt and done
    channel (and every other field) are equal. Through the manager: Stop
    on an unknown id returns ErrProcessNotFound, and a second Manager.Stop
    leaves the table as the first left it. *)
Theorem Stop_idempotent (p : Process) (now now' : Time) :
  (Status p = StatusPending \/ Status p = StatusRunning ->
   Status (Stop p now) = StatusStopped /\ CompletedAt (Stop p now) = Some now) /\
  done (Stop p now) = true /\
  Stop (Stop p now) now' = Stop p now /\
  Status (Stop (Stop p now) now') = Status (Stop p now) /\
  CompletedAt (Stop (Stop p now) now') = CompletedAt (Stop p now) /\
  done (Stop (Stop p now) now') = done (Stop p now) /\
  (forall (m : Manager) (id : string),
     (processes m !! id = None ->
      Manager_Stop m id now = (m, Some ErrProcessNotFound)) /\
     (processes m !! id = Some p ->
      let m1 := with_processes (<[id := Stop p now]> (processes m)) m in
      Manager_Stop m id now = (m1, None) /\
      Manager_Stop m1 id now' = (m1, None))).
Proof.
  split.
  { intros H. apply is_active_iff in H. by rewrite Stop_status, Stop_completedAt, H. }
  split; [apply Stop_done|]. rewrite Stop_Stop. repeat (split; [done|]).
  intros m id. split.
  - intros H. unfold Manager_Stop. by rewrite H.
  - intros H m1. unfold Manager_Stop. rewrite H. split; [done|].
    subst m1. simpl. rewrite lookup_insert_eq, Stop_Stop.
    unfold with_processes. simpl. by rewrite insert_insert_eq.
Qed.

Lemma Stop_idempotent_witness :
  (Status sampleProcess = StatusPending \/ Status sampleProcess = StatusRunning) /\
  Status (Stop sampleProcess 5) = StatusStopped /\
  CompletedAt (Stop sampleProcess 5) = Some 5.
Proof.
  assert (H : Status sampleProcess = StatusPending \/ Status sampleProcess = StatusRunning)
    by (left; reflexivity).
  split; [exact H|].
  exact (proj1 (Stop_idempotent sampleProcess 5 9) H).
Defined.

(** *** Result cache *)

Lemma GetResultData_SetResultData (p : Process) (data : RawMessage) (s t : Time) :
  GetResultData (SetResultData p data s) t =
  if t <=? s + 10 * Minute then data else None.
Proof.
  unfold GetResultData, SetResultData, time_After, time_Add. simpl.
  destruct (Z.ltb_spec (s + 10 * Minute) t), (Z.leb_spec t (s + 10 * Minute)); done || lia.
Qed.

Lemma bind_Ok {A B} (m : go A) (f : A -> go B) (b : B) :
  m ≫= f = Ok b -> exists a, m = Ok a /\ f a = Ok b.
Proof. destruct m as [a|e]; simpl; [eauto|discriminate]. Qed.

Ltac go_inv H :=
  repeat match type of H with
         | _ ≫= _ = Ok _ =>
             let E := fresh "E" in
             apply bind_Ok in H; destruct H as (? & E & H)
         end.

(** *** Frame lemmas: which fields a method can change *)

Lemma AddEvent_inv (p p' : Process) (event : Event) :
  AddEvent p event = Ok p' ->
  exists buf subs,
    Push (events p) event = Ok buf /\ fanout event (subscribers p) = Ok subs /\
    p' = set_subscribers subs (set_events buf p).
Proof.
  unfold AddEvent. intros H. go_inv H. injection H as <-. eauto.
Qed.

Lemma Close_inv (p p' : Process) (now : Time) :
  Close p now = Ok p' ->
  exists subs,
    close_all (subscribers p) = Ok subs /\
    Status p' = Status p /\ events p' = events p /\ subscribers p' = subs /\
    result p' = result p /\ resultData p' = resultData p /\
    resultExpiry p' = resultExpiry p /\ done p' = true /\
    CompletedAt p' = match CompletedAt p with
                     | None => Some now
                     | Some t => Some t
                     end.
Proof.
  unfold Close. intros H.
  destruct p as [? ? ? ? ? ? ca ? ? ? ? ? d ? ?]; simpl in *.
  destruct d; simpl in H; go_inv H; injection H as <-;
    eexists; (split; [eassumption|]); destruct ca; simpl; done.
Qed.

Lemma Unsubscribe_inv (p p' : Process) (id : string) :
  Unsubscribe p id = Ok p' ->
  p' = set_subscribers (delete id (subscribers p)) p.
Proof.
  unfold Unsubscribe. destruct (subscribers p !! id) eqn:E.
  - intros H. go_inv H. by injection H as <-.
  - intros [= <-]. rewrite delete_id by done. by destruct p.
Qed.

Lemma Stop_frame (p : Process) (now : Time) :
  events (Stop p now) = events p /\ subscribers (Stop p now) = subscribers p /\
  result (Stop p now) = result p /\ resultData (Stop p now) = resultData p /\
  resultExpiry (Stop p now) = resultExpiry p.
Proof.
  unfold Stop. destruct p as [? ? ? ? st ? ? c ? ? ? cn d ? ?]. simpl.
  destruct cn, c as [[? ? ? [] ?]|], d; simpl;
    destruct ((st =? StatusPending)%string || (st =? StatusRunning)%string); done.
Qed.

(** *** Result cache *)

Section Cache.
Variable marshal_error : string -> string.
Variable marshal_done : string -> string -> option Result -> string.

Lemma cache_frame_AddEvent p p' e :
  AddEvent p e = Ok p' ->
  resultData p' = resultData p /\ resultExpiry p' = resultExpiry p.
Proof. intros H. apply AddEvent_inv in H as (? & ? & _ & _ & ->). done. Qed.

Lemma cache_frame_step c p p' a :
  step marshal_error marshal_done c p a = Ok p' ->
  (forall line now1 now2, a <> ActLine line now1 now2) ->
  resultData p' = resultData p /\ resultExpiry p' = resultExpiry p.
Proof.
  intros H Hne. destruct a; simpl in H.
  - by injection H as <-.
  - by injection H as <-.
  - injection H as <-. unfold cmd_Start. by destruct (cmd p).
  - by destruct (Hne line now1 now2).
  - unfold handleError, sendErrorEvent, sendDoneEvent in H. go_inv H.
    apply cache_frame_AddEvent in E as [E1 E2].
    apply cache_frame_AddEvent in E0 as [E3 E4].
    apply Close_inv in H as (? & _ & _ & _ & _ & _ & E5 & E6 & _).
    simpl in *. split; congruence.
  - unfold run_select, sendErrorEvent in H.
    destruct sel as [|[cmdErr|]].
    + apply cache_frame_AddEvent in H as [E1 E2]. simpl in *.
      destruct (cmd p) as [[? ? ? [] ?]|]; simpl in *; split; congruence.
    + apply cache_frame_AddEvent in H as [E1 E2]. simpl in *. done.
    + by injection H as <-.
  - unfold run_finish, sendDoneEvent in H. go_inv H.
    apply cache_frame_AddEvent in E as [E1 E2].
    apply Close_inv in H as (? & _ & _ & _ & _ & _ & E5 & E6 & _).
    split; congruence.
  - by injection H as <-.
  - apply Unsubscribe_inv in H as ->. done.
  - injection H as <-. pose proof (Stop_frame p now). tauto.
Qed.

Lemma cache_after_result_line c p p' line ev now1 now2 t :
  ParseLine c line = (Some ev, None) -> Type_ ev = "result" ->
  stream_line c p line now1 now2 = Ok p' ->
  GetResultData p' t = if t <=? now2 + 10 * Minute then Data ev else None.
Proof.
  intros HP HT H. unfold stream_line in H. rewrite HP in H. simpl in H.
  rewrite HT in H. simpl in H. go_inv H. injection H as <-.
  apply GetResultData_SetResultData.
Qed.
End Cache.

(** C4, as amended. A read of the result cache returns absent while no
    result event has populated it (in particular on a fresh process).
    After SetResultData at time s, a read at any time up to and including
    s + 10 minutes returns the payload written last, and a read strictly
    after s + 10 minutes returns absent. A result line processed by
    streamOutput populates the cache in this way. Expiry is decided by
    the read alone: no step of the runner or of the handlers other than a
    result line changes the cache slot. *)
Theorem result_cache_ttl (p : Process) (data : RawMessage) (s t : Time) :
  (resultExpiry p = None -> GetResultData p t = None) /\
  (forall id connector prompt workDir bufferSize now p0,
     NewProcess id connector prompt workDir bufferSize now = Ok p0 ->
     GetResultData p0 t = None) /\
  (t <= s + 10 * Minute -> GetResultData (SetResultData p data s) t = data) /\
  (s + 10 * Minute < t -> GetResultData (SetResultData p data s) t = None) /\
  (forall data0 s0,
     GetResultData (SetResultData (SetResultData p data0 s0) data s) t =
     GetResultData (SetResultData p data s) t) /\
  (forall c line ev now1 p',
     ParseLine c line = (Some ev, None) -> Type_ ev = "result" ->
     stream_line c p line now1 s = Ok p' ->
     GetResultData p' t = if t <=? s + 10 * Minute then Data ev else None) /\
  (forall marshal_error marshal_done c a p',
     step marshal_error marshal_done c p a = Ok p' ->
     (forall line now1 now2, a <> ActLine line now1 now2) ->
     resultData p' = resultData p /\ resultExpiry p' = resultExpiry p).
Proof.
  split.
  { intros H. unfold GetResultData. by rewrite H. }
  split.
  { intros id connector prompt workDir bufferSize now p0 H.
    unfold NewProcess in H. go_inv H. by injection H as <-. }
  split.
  { intros H. rewrite GetResultData_SetResultData.
    destruct (Z.leb_spec t (s + 10 * Minute)); [done|lia]. }
  split.
  { intros H. rewrite GetResultData_SetResultData.
    destruct (Z.leb_spec t (s + 10 * Minute)); [lia|done]. }
  split.
  { intros data0 s0. by rewrite !GetResultData_SetResultData. }
  split.
  { intros c line ev now1 p' HP HT H.
    by apply (cache_after_result_line c p p' line ev now1 s t). }
  intros marshal_error marshal_done c a p'. apply cache_frame_step.
Qed.

Lemma result_cache_ttl_witness :
  0 + 10 * Minute <= 0 + 10 * Minute /\
  GetResultData (SetResultData sampleProcess (Some "{}") 0) (0 + 10 * Minute)
  = Some "{}".
Proof.
  assert (H : 0 + 10 * Minute <= 0 + 10 * Minute) by lia.
  split; [exact H|].
  exact (proj1 (proj2 (proj2
    (result_cache_ttl sampleProcess (Some "{}") 0 (0 + 10 * Minute)))) H).
Defined.

(** C4, counterexample. The claim makes every read at or after the expiry
    time return absent. At the expiry instant itself (payload written at
    time 0, read at 0 + 10 minutes) GetResultData still returns the
    payload: it tests [time.Now().After(expiry)], which is strict. *)
Lemma result_cache_expiry_instant_counterexample :
  ~ (forall (p : Process) (data : RawMessage) (s t : Time),
       s + 10 * Minute <= t ->
       GetResultData (SetResultData p data s) t = None).
Proof.
  intros H.
  specialize (H sampleProcess (Some "{}") 0 (0 + 10 * Minute)).
  discriminate H. lia.
Qed.

(** The sibling [HasValidResultData] uses [Before], which is strict the
    other way: at the expiry instant it answers false while
    [GetResultData] still returns the payload. *)
Lemma HasValidResultData_at_expiry (p : Process) (data : string) (s : Time) :
  HasValidResultData (SetResultData p (Some data) s) (s + 10 * Minute) = false /\
  GetResultData (SetResultData p (Some data) s) (s + 10 * Minute) = Some data.
Proof.
  split.
  - unfold HasValidResultData, SetResultData, time_Before, time_Add. simpl.
    apply Z.ltb_irrefl.
  - rewrite GetResultData_SetResultData. by rewrite Z.leb_refl.
Qed.

(** *** Event kinds *)

Lemma Claude_ParseLine_kind TrimSpace json_Unmarshal line e :
  Claude_ParseLine TrimSpace json_Unmarshal line = (Some e, None) ->
  Type_ e = "stream" \/ Type_ e = "result".
Proof.
  unfold Claude_ParseLine.
  destruct (TrimSpace line =? EmptyString)%string; [discriminate|].
  destruct (json_Unmarshal (TrimSpace line)) as [rawJSON|]; [|discriminate].
  intros [= <-]. simpl.
  destruct (rawJSON !! "type") as [[| | |s| |]|]; auto.
  destruct (s =? "result")%string; auto.
Qed.

Lemma kind_ok_cases (e : Event) :
  Type_ e = "stream" \/ Type_ e = "result" \/ Type_ e = "error" \/ Type_ e = "done" ->
  kind_ok e.
Proof.
  unfold kind_ok, code_kinds. intros [-> | [-> | [-> | ->]]];
    repeat first [apply list_elem_of_here | apply list_elem_of_further].
Qed.

Lemma proc_inv_frame (p p' : Process) :
  events p' = events p -> subscribers p' = subscribers p ->
  proc_inv p -> proc_inv p'.
Proof. unfold proc_inv. intros -> ->. done. Qed.

Lemma AddEvent_proc_inv (p p' : Process) (e : Event) :
  proc_inv p -> kind_ok e -> AddEvent p e = Ok p' -> proc_inv p'.
Proof.
  intros ((hist & Hrb & Hk) & Hopen & Hbuf) He H.
  destruct Hrb as [(Hsz & _) | (c & Hc & Hmax & Hrepr)].
  { apply AddEvent_inv in H as (buf & _ & E & _).
    destruct (Push_zero_size (events p) e Hsz) as [E'|E']; congruence. }
  destruct (AddEvent_spec p e c hist Hc Hmax Hrepr Hopen) as (buf & _ & Hrepr' & EA).
  rewrite EA in H. injection H as <-. unfold proc_inv. simpl. split; [|split].
  - exists (hist ++ [e]). split.
    + right. by exists c.
    + apply Forall_app. split; [done|]. by apply Forall_singleton.
  - intros id ch. rewrite lookup_fmap.
    destruct (subscribers p !! id) as [ch0|] eqn:E; [|done].
    intros [= <-]. apply deliver_open. by apply (Hopen id).
  - intros id ch. rewrite lookup_fmap.
    destruct (subscribers p !! id) as [ch0|] eqn:E; [|done].
    intros [= <-]. unfold deliver.
    destruct (_ <? _)%nat; simpl; [|by apply (Hbuf id)].
    apply Forall_app. split; [by apply (Hbuf id)|]. by apply Forall_singleton.
Qed.

Lemma Close_proc_inv (p p' : Process) (now : Time) :
  proc_inv p -> Close p now = Ok p' -> proc_inv p'.
Proof.
  intros (Hh & Hopen & Hbuf) H.
  apply Close_inv in H as (subs & Hc & _ & He & Hs & _).
  rewrite close_all_open in Hc by done. injection Hc as <-.
  unfold proc_inv. rewrite He, Hs. split; [done|].
  split; intros id ch; by rewrite lookup_empty.
Qed.

Section Kinds.
Variable TrimSpace : string -> string.
Variable json_Unmarshal : string -> option (gmap string json).
Variable cfg : config.ConnectorConfig.
Variable marshal_error : string -> string.
Variable marshal_done : string -> string -> option Result -> string.

Lemma sendErrorEvent_proc_inv p p' msg now :
  proc_inv p -> sendErrorEvent marshal_error p msg now = Ok p' -> proc_inv p'.
Proof.
  intros Hi H. eapply AddEvent_proc_inv; [exact Hi| |exact H].
  apply kind_ok_cases. simpl. auto.
Qed.

Lemma sendDoneEvent_proc_inv p p' now :
  proc_inv p -> sendDoneEvent marshal_done p now = Ok p' -> proc_inv p'.
Proof.
  intros Hi H. eapply AddEvent_proc_inv; [exact Hi| |exact H].
  apply kind_ok_cases. simpl. auto.
Qed.

Lemma step_proc_inv p p' a :
  proc_inv p -> step marshal_error marshal_done
    (ClaudeConnector TrimSpace json_Unmarshal cfg) p a = Ok p' ->
  proc_inv p'.
Proof.
  intros Hi H. destruct a; simpl in H.
  - injection H as <-. by apply (proc_inv_frame p).
  - injection H as <-. by apply (proc_inv_frame p).
  - injection H as <-. apply (proc_inv_frame p); [| |done];
      unfold cmd_Start; by destruct (cmd p).
  - unfold stream_line in H. simpl in H.
    destruct (Claude_ParseLine TrimSpace json_Unmarshal line) as [[ev|] [err|]] eqn:EP;
      try (injection H as <-; done).
    apply Claude_ParseLine_kind in EP. go_inv H.
    assert (Hx : proc_inv x).
    { eapply AddEvent_proc_inv; [exact Hi| |exact E].
      apply kind_ok_cases. simpl. tauto. }
    simpl in H. destruct (Type_ ev =? "result")%string; injection H as <-; [|done].
    by apply (proc_inv_frame x).
  - unfold handleError in H. go_inv H.
    apply sendErrorEvent_proc_inv in E; [|by apply (proc_inv_frame p)].
    apply sendDoneEvent_proc_inv in E0; [|done].
    by apply (Close_proc_inv x0 p' now3).
  - unfold run_select in H. destruct sel as [|[cmdErr|]].
    + apply sendErrorEvent_proc_inv in H; [done|].
      apply (proc_inv_frame p); [| |done];
        by destruct (cmd p) as [[? ? ? [] ?]|].
    + apply sendErrorEvent_proc_inv in H; [done|]. by apply (proc_inv_frame p).
    + injection H as <-. by apply (proc_inv_frame p).
  - unfold run_finish in H. go_inv H.
    apply sendDoneEvent_proc_inv in E; [|done].
    by apply (Close_proc_inv x p' now2).
  - injection H as <-. destruct Hi as (Hh & Hopen & Hbuf).
    unfold proc_inv, Subscribe. simpl. split; [done|].
    split; intros id ch; rewrite lookup_insert; case_decide.
    + by intros [= <-].
    + apply Hopen.
    + intros [= <-]. simpl. constructor.
    + apply Hbuf.
  - apply Unsubscribe_inv in H as ->. destruct Hi as (Hh & Hopen & Hbuf).
    unfold proc_inv. simpl. split; [done|].
    split; intros id ch; rewrite lookup_delete; case_decide; try done.
    + apply Hopen.
    + apply Hbuf.
  - injection H as <-. pose proof (Stop_frame p now) as (? & ? & _).
    by apply (proc_inv_frame p).
Qed.

Lemma exec_proc_inv acts p p' :
  proc_inv p -> exec marshal_error marshal_done
    (ClaudeConnector TrimSpace json_Unmarshal cfg) p acts = Ok p' ->
  proc_inv p'.
Proof.
  revert p. induction acts as [|a acts IH]; intros p Hi H; simpl in H.
  - by injection H as <-.
  - go_inv H. apply (IH x); [|done]. by apply (step_proc_inv p x a).
Qed.
End Kinds.

Lemma NewProcess_proc_inv id connector prompt workDir bufferSize now p0 :
  bufferSize <= int_max ->
  NewProcess id connector prompt workDir bufferSize now = Ok p0 ->
  proc_inv p0.
Proof.
  intros Hmax H. unfold NewProcess, NewRingBuffer, make in H.
  destruct (Z.ltb_spec bufferSize 0); [discriminate|]. simpl in H.
  injection H as <-. unfold proc_inv. simpl. split; [|split].
  - exists []. split; [|constructor].
    destruct (decide (bufferSize = 0)) as [->|Hne].
    + left. done.
    + right. exists (Z.to_nat bufferSize). split; [lia|]. split; [lia|].
      destruct (rb_repr_new zeroEvent bufferSize) as (rb & E & Hr); [lia|].
      unfold NewRingBuffer, make in E.
      destruct (Z.ltb_spec bufferSize 0); [lia|]. simpl in E. by injection E as <-.
  - intros id' ch. by rewrite lookup_empty.
  - intros id' ch. by rewrite lookup_empty.
Qed.

Lemma proc_inv_events (p : Process) :
  proc_inv p -> exists evs, GetEvents p = Ok evs /\ Forall kind_ok evs.
Proof.
  intros ((hist & [(Hsz & Hcnt & ->) | (c & Hc & Hmax & Hrepr)] & Hk) & _).
  - exists []. split; [|constructor]. unfold GetEvents, ToSlice. by rewrite Hcnt.
  - exists (window c hist). split; [by apply ToSlice_repr|].
    unfold window. by apply Forall_drop.
Qed.

(** *** The steps never panic on a buffer of capacity at least 1 *)

Lemma Push_size {T : Type} (rb rb' : RingBuffer T) (x : T) :
  Push rb x = Ok rb' -> rb_size rb' = rb_size rb.
Proof. unfold Push. intros H. go_inv H. by injection H as <-. Qed.

Lemma AddEvent_ok (p : Process) (e : Event) :
  proc_inv p -> 1 <= rb_size (events p) -> kind_ok e ->
  exists p', AddEvent p e = Ok p' /\ proc_inv p' /\
             rb_size (events p') = rb_size (events p).
Proof.
  intros Hi Hsz He.
  assert (HOk : exists p', AddEvent p e = Ok p').
  { destruct Hi as ((hist & [(Hz & _) | (c & Hc & Hmax & Hrepr)] & _) & Hopen & _);
      [lia|].
    destruct (AddEvent_spec p e c hist Hc Hmax Hrepr Hopen) as (buf & _ & _ & EA).
    eauto. }
  destruct HOk as (p' & E). exists p'. split; [done|].
  split; [by apply (AddEvent_proc_inv p p' e)|].
  apply AddEvent_inv in E as (buf & subs & EP & _ & ->). simpl.
  by apply (Push_size (events p) buf e).
Qed.

Lemma Close_ok (p : Process) (now : Time) :
  proc_inv p ->
  exists p', Close p now = Ok p' /\ proc_inv p' /\ events p' = events p.
Proof.
  intros Hi.
  assert (HOk : exists p', Close p now = Ok p').
  { destruct Hi as (_ & Hopen & _). unfold Close.
    destruct (done p); simpl; rewrite close_all_open by done; simpl; eauto. }
  destruct HOk as (p' & E). exists p'. split; [done|].
  split; [by apply (Close_proc_inv p p' now)|].
  by apply Close_inv in E as (? & _ & _ & ? & _).
Qed.

Section Totality.
Variable TrimSpace : string -> string.
Variable json_Unmarshal : string -> option (gmap string json).
Variable cfg : config.ConnectorConfig.
Variable marshal_error : string -> string.
Variable marshal_done : string -> string -> option Result -> string.

Lemma step_ok p a :
proc_inv p -> 1 <= rb_size (events p) ->
exists p',
  step marshal_error marshal_done
    (ClaudeConnector TrimSpace json_Unmarshal cfg) p a = Ok p' /\
  proc_inv p' /\ rb_size (events p') = rb_size (events p).
Proof.
intros Hi Hsz.
assert (HOk : exists p',
  step marshal_error marshal_done
    (ClaudeConnector TrimSpace json_Unmarshal cfg) p a = Ok p' /\
  rb_size (events p') = rb_size (events p)).
{ destruct a; simpl.
  - eexists. split; [reflexivity|]. done.
  - eexists. split; [reflexivity|]. done.
  - eexists. split; [reflexivity|]. unfold cmd_Start. by destruct (cmd p).
  - unfold stream_line. simpl.
    destruct (Claude_ParseLine TrimSpace json_Unmarshal line) as [[ev|] [err|]] eqn:EP;
      try (eexists; split; [reflexivity|done]).
    apply Claude_ParseLine_kind in EP.
    destruct (AddEvent_ok p {| Type_ := Type_ ev; Data := Data ev; Timestamp := now1 |})
      as (p1 & E1 & _ & S1); [done|done| |].
    { apply kind_ok_cases. simpl. tauto. }
    rewrite E1. simpl.
    destruct (Type_ ev =? "result")%string; eexists; (split; [reflexivity|done]).
  - unfold handleError, sendErrorEvent, sendDoneEvent.
    destruct (AddEvent_ok
      (SetResult (SetStatus p StatusFailed)
         (Some {| ExitCode := 1; Output := None; Error := err |}))
      {| Type_ := "error"; Data := Some (marshal_error err); Timestamp := now1 |})
      as (p1 & E1 & I1 & S1); [by apply (proc_inv_frame p)|done| |].
    { apply kind_ok_cases. simpl. tauto. }
    rewrite E1. simpl.
    destruct (AddEvent_ok p1
      {| Type_ := "done";
         Data := Some (marshal_done (ID p1) (Status p1) (GetResult p1));
         Timestamp := now2 |})
      as (p2 & E2 & I2 & S2); [done|simpl in S1; lia| |].
    { apply kind_ok_cases. simpl. tauto. }
    rewrite E2. simpl.
    destruct (Close_ok p2 now3 I2) as (p3 & E3 & _ & S3).
    exists p3. split; [done|]. rewrite S3, S2, S1. done.
  - unfold run_select, sendErrorEvent. destruct sel as [|[cmdErr|]].
    + match goal with
      | |- context [AddEvent ?q ?e] =>
          destruct (AddEvent_ok q e) as (p1 & E1 & _ & S1)
      end.
      { apply (proc_inv_frame p); [| |done];
          by destruct (cmd p) as [[? ? ? [] ?]|]. }
      { by destruct (cmd p) as [[? ? ? [] ?]|]. }
      { apply kind_ok_cases. simpl. tauto. }
      exists p1. split; [done|]. rewrite S1.
      by destruct (cmd p) as [[? ? ? [] ?]|].
    + match goal with
      | |- context [AddEvent ?q ?e] =>
          destruct (AddEvent_ok q e) as (p1 & E1 & _ & S1)
      end.
      { by apply (proc_inv_frame p). }
      { done. }
      { apply kind_ok_cases. simpl. tauto. }
      exists p1. split; done.
    + eexists. split; [reflexivity|done].
  - unfold run_finish, sendDoneEvent.
    destruct (AddEvent_ok p
      {| Type_ := "done";
         Data := Some (marshal_done (ID p) (Status p) (GetResult p));
         Timestamp := now1 |})
      as (p1 & E1 & I1 & S1); [done|done| |].
    { apply kind_ok_cases. simpl. tauto. }
    rewrite E1. simpl.
    destruct (Close_ok p1 now2 I1) as (p2 & E2 & _ & S2).
    exists p2. split; [done|]. by rewrite S2.
  - eexists. split; [reflexivity|done].
  - unfold Unsubscribe.
    destruct (subscribers p !! subscriberID) as [ch|] eqn:E.
    + destruct Hi as (_ & Hopen & _). unfold close_chan.
      rewrite (Hopen _ _ E). simpl. eexists. split; [reflexivity|done].
    + eexists. split; [reflexivity|done].
  - eexists. split; [reflexivity|].
    pose proof (Stop_frame p now) as (-> & _). done. }
destruct HOk as (p' & E & S). exists p'. split; [done|]. split; [|done].
by apply (step_proc_inv TrimSpace json_Unmarshal cfg marshal_error marshal_done p p' a).
Qed.

Lemma exec_ok acts p :
proc_inv p -> 1 <= rb_size (events p) ->
exists p',
  exec marshal_error marshal_done
    (ClaudeConnector TrimSpace json_Unmarshal cfg) p acts = Ok p' /\
  proc_inv p' /\ rb_size (events p') = rb_size (events p).
Proof.
revert p. induction acts as [|a acts IH]; intros p Hi Hsz; simpl.
- exists p. done.
- destruct (step_ok p a Hi Hsz) as (p1 & E1 & I1 & S1). rewrite E1. simpl.
  destruct (IH p1 I1) as (p2 & E2 & I2 & S2); [lia|].
  exists p2. split; [done|]. split; [done|]. lia.
Qed.
End Totality.

(** With a buffer size that is a Go int and at least 1, no sequence of
    steps panics, and [AddEvent] returns in every state the steps reach:
    a failure local to one job never takes the process down. *)
Lemma runs_never_panic TrimSpace json_Unmarshal cfg marshal_error marshal_done
    id connector prompt workDir bufferSize now p0 acts :
  1 <= bufferSize <= int_max ->
  NewProcess id connector prompt workDir bufferSize now = Ok p0 ->
  exists p,
    exec marshal_error marshal_done
      (ClaudeConnector TrimSpace json_Unmarshal cfg) p0 acts = Ok p /\
    forall e, exists p', AddEvent p e = Ok p'.
Proof.
  intros [H1 H2] H0.
  assert (Hsz : rb_size (events p0) = bufferSize).
  { unfold NewProcess, NewRingBuffer, make in H0.
    destruct (Z.ltb_spec bufferSize 0); [lia|]. simpl in H0. by injection H0 as <-. }
  apply NewProcess_proc_inv in H0; [|done].
  destruct (exec_ok TrimSpace json_Unmarshal cfg marshal_error marshal_done acts p0)
    as (p & E & Hi & S); [done|lia|].
  exists p. split; [done|]. intros e.
  destruct Hi as ((hist & [(Hz & _) | (c & Hc & Hmax & Hrepr)] & _) & Hopen & _);
    [lia|].
  destruct (AddEvent_spec p e c hist Hc Hmax Hrepr Hopen) as (buf & _ & _ & EA).
  eauto.
Qed.

(** C5, as amended. The kinds of the code are stream, result, error and
    done (there is no kind output). The Claude parser gives every line it
    understands the kind stream or result. For a process made by
    NewProcess and driven by any sequence of steps of the runner (with
    the Claude connector) and of the handlers, every event in the
    snapshot of its buffer and every event queued on a subscriber channel
    has one of these four kinds. *)
Theorem event_kinds_of_the_code
    (TrimSpace : string -> string)
    (json_Unmarshal : string -> option (gmap string json))
    (cfg : config.ConnectorConfig)
    (marshal_error : string -> string)
    (marshal_done : string -> string -> option Result -> string) :
  (forall line e,
     ParseLine (ClaudeConnector TrimSpace json_Unmarshal cfg) line = (Some e, None) ->
     Type_ e = "stream" \/ Type_ e = "result") /\
  (forall id connector prompt workDir bufferSize now p0 acts p,
     bufferSize <= int_max ->
     NewProcess id connector prompt workDir bufferSize now = Ok p0 ->
     exec marshal_error marshal_done
       (ClaudeConnector TrimSpace json_Unmarshal cfg) p0 acts = Ok p ->
     (exists evs, GetEvents p = Ok evs /\
                  Forall (fun e => Type_ e ∈ code_kinds) evs) /\
     (forall sid ch, subscribers p !! sid = Some ch ->
                     Forall (fun e => Type_ e ∈ code_kinds) (ch_buf ch))).
Proof.
  split.
  { intros line e. simpl. apply Claude_ParseLine_kind. }
  intros id connector prompt workDir bufferSize now p0 acts p Hmax H0 H.
  apply NewProcess_proc_inv in H0; [|done].
  apply exec_proc_inv in H; [|done].
  split; [by apply proc_inv_events|]. by destruct H as (_ & _ & ?).
Qed.

Lemma event_kinds_of_the_code_witness :
  4 <= int_max /\
  NewProcess "job-1" "claude" "hello" EmptyString 4 0 = Ok sampleProcess /\
  exists p,
    exec sample_marshal_error sample_marshal_done sampleClaude sampleProcess
      sampleRun = Ok p /\
    (exists evs, GetEvents p = Ok evs /\
                 Forall (fun e => Type_ e ∈ code_kinds) evs) /\
    (forall sid ch, subscribers p !! sid = Some ch ->
                    Forall (fun e => Type_ e ∈ code_kinds) (ch_buf ch)).
Proof.
  assert (H1 : 4 <= int_max) by (unfold int_max; lia).
  assert (H2 : NewProcess "job-1" "claude" "hello" EmptyString 4 0 = Ok sampleProcess)
    by reflexivity.
  split; [exact H1|]. split; [exact H2|].
  eexists. split; [vm_compute; reflexivity|].
  apply (proj2 (event_kinds_of_the_code sample_TrimSpace sample_Unmarshal
                  sampleConnectorConfig sample_marshal_error sample_marshal_done)
           "job-1" "claude" "hello" EmptyString 4 0 sampleProcess sampleRun _ H1 H2).
  vm_compute; reflexivity.
Defined.

Example sampleRun_events :
  exists p evs,
    exec sample_marshal_error sample_marshal_done sampleClaude sampleProcess
      sampleRun = Ok p /\
    GetEvents p = Ok evs /\ Type_ <$> evs = ["stream"; "done"] /\
    Status p = StatusCompleted /\ CompletedAt p = Some 5 /\
    subscribers p = ∅.
Proof.
  do 2 eexists. split; [vm_compute; reflexivity|].
  split; [vm_compute; reflexivity|]. vm_compute. done.
Qed.

(** C5, counterexample. The line [{}] is a JSON object without a type
    field; the Claude parser turns it into an event of kind stream, which
    is not one of output, result, error, done. *)
Lemma parser_kind_stream_counterexample :
  ParseLine sampleClaude "{}"
    = (Some {| Type_ := "stream"; Data := Some "{}"; Timestamp := 0 |}, None) /\
  ~ (forall line e,
       ParseLine sampleClaude line = (Some e, None) -> Type_ e ∈ spec_kinds).
Proof.
  assert (E : ParseLine sampleClaude "{}"
    = (Some {| Type_ := "stream"; Data := Some "{}"; Timestamp := 0 |}, None))
    by reflexivity.
  split; [exact E|]. intros H. specialize (H _ _ E). simpl in H.
  unfold spec_kinds in H. rewrite !elem_of_cons, elem_of_nil in H.
  destruct H as [H | [H | [H | [H | []]]]]; discriminate H.
Qed.

(** *** Terminal status *)

(** What [Stop] and [Close] do guard: neither changes a terminal status,
    and neither reassigns a completion time that is set on a terminal
    job. *)
Lemma Stop_Close_keep_terminal (p : Process) (now : Time) :
  is_terminal p = true ->
  Status (Stop p now) = Status p /\ CompletedAt (Stop p now) = CompletedAt p /\
  forall p', Close p now = Ok p' ->
    Status p' = Status p /\
    (forall t, CompletedAt p = Some t -> CompletedAt p' = Some t).
Proof.
  intros H. apply terminal_not_active in H.
  rewrite Stop_status, Stop_completedAt, H. repeat split; try done.
  - apply Close_inv in H0 as (? & _ & ? & _). done.
  - intros t Ht. apply Close_inv in H0 as (? & _ & _ & _ & _ & _ & _ & _ & _ & E).
    by rewrite E, Ht.
Qed.

(** C2, the code at a failing input. A job is spawned and started, then
    stopped at 5 s: its status is stopped and its completion time 5 s.
    The kill makes [cmd.Wait] return an error; when the [select] of [run]
    takes that case, [SetStatus] overwrites the terminal status stopped
    with failed (and with completed when [Wait] returns nil). [Spawn]
    after a [Stop] takes a stopped job back to running, and a second
    [Stop], at 9 s, then assigns the completion time again. *)
Theorem terminal_status_overwritten :
  let started := cmd_Start (run_build sampleClaude (Spawn sampleProcess)) in
  let stopped := Stop started (5 * Second) in
  let respawned := Spawn (Stop sampleProcess (5 * Second)) in
  Status started = StatusRunning /\
  Status stopped = StatusStopped /\ CompletedAt stopped = Some (5 * Second) /\
  (exists p, run_select sample_marshal_error stopped
               (CmdDone (Some (ExitError (-1) "signal: killed")))
               (6 * Second) = Ok p /\
             Status p = StatusFailed /\ CompletedAt p = Some (5 * Second)) /\
  (exists p, run_select sample_marshal_error stopped (CmdDone None)
               (6 * Second) = Ok p /\
             Status p = StatusCompleted /\ CompletedAt p = Some (5 * Second)) /\
  CompletedAt (Stop sampleProcess (5 * Second)) = Some (5 * Second) /\
  Status (Stop sampleProcess (5 * Second)) = StatusStopped /\
  Status respawned = StatusRunning /\
  CompletedAt (Stop respawned (9 * Second)) = Some (9 * Second).
Proof.
  simpl. repeat split.
  - eexists. split; [vm_compute; reflexivity|]. split; reflexivity.
  - eexists. split; [vm_compute; reflexivity|]. split; reflexivity.
Qed.

(** ** Manager: admission, removal, cleanup *)

(** *** Counting the active jobs *)

Lemma num_active_empty : num_active ∅ = 0%nat.
Proof. unfold num_active. by rewrite map_filter_empty, map_size_empty. Qed.

Lemma num_active_insert_None (ps : gmap string Process) i p :
  ps !! i = None ->
  num_active (<[i := p]> ps) =
  if is_active p then S (num_active ps) else num_active ps.
Proof.
  intros Hi. unfold num_active. destruct (is_active p) eqn:E.
  - rewrite map_filter_insert_True by done.
    rewrite map_size_insert_None; [done|].
    apply map_lookup_filter_None. by left.
  - rewrite map_filter_insert_False by (simpl; congruence).
    by rewrite delete_id by done.
Qed.

Lemma num_active_delete_le (ps : gmap string Process) i :
  (num_active (delete i ps) <= num_active ps)%nat.
Proof.
  unfold num_active. rewrite map_filter_delete.
  destruct (filter (λ kv, is_active kv.2 = true) ps !! i) eqn:E.
  - erewrite map_size_delete_Some by eauto. lia.
  - by rewrite delete_id.
Qed.

Lemma num_active_insert_le (ps : gmap string Process) i p :
  (num_active (<[i := p]> ps) <= S (num_active ps))%nat.
Proof.
  rewrite <- insert_delete_eq.
  rewrite num_active_insert_None by apply lookup_delete_eq.
  pose proof (num_active_delete_le ps i). destruct (is_active p); lia.
Qed.

Lemma activeCount_spec (ps : gmap string Process) :
  Z.of_nat (num_active ps) <= int_max ->
  activeCount ps = Z.of_nat (num_active ps).
Proof.
  unfold activeCount.
  apply (map_fold_weak_ind
    (fun r m => Z.of_nat (num_active m) <= int_max -> r = Z.of_nat (num_active m))).
  - intros _. by rewrite num_active_empty.
  - intros i p m r Hi IH Hle.
    rewrite num_active_insert_None in * by done.
    fold (is_active p). destruct (is_active p).
    + rewrite IH by lia. rewrite int_add_id; [lia|]. unfold int_min. lia.
    + by apply IH.
Qed.

(** *** Create *)

Lemma NewProcess_Ok id connector prompt workDir bufferSize now :
  0 <= bufferSize ->
  exists p, NewProcess id connector prompt workDir bufferSize now = Ok p /\
            Status p = StatusPending.
Proof.
  intros H. unfold NewProcess, NewRingBuffer, make.
  destruct (Z.ltb_spec bufferSize 0); [lia|]. simpl. eauto.
Qed.

Lemma NewProcess_inv id connector prompt workDir bufferSize now p :
  NewProcess id connector prompt workDir bufferSize now = Ok p ->
  0 <= bufferSize /\ Status p = StatusPending.
Proof.
  unfold NewProcess, NewRingBuffer, make.
  destruct (Z.ltb_spec bufferSize 0); [discriminate|]. simpl.
  by intros [= <-].
Qed.

Lemma NewProcess_Panic id connector prompt workDir bufferSize now e :
  NewProcess id connector prompt workDir bufferSize now = Panic e ->
  bufferSize < 0.
Proof.
  unfold NewProcess, NewRingBuffer, make.
  destruct (Z.ltb_spec bufferSize 0); [done|discriminate].
Qed.

Lemma Create_refused (m : Manager) connector prompt workDir id now :
  max_concurrent m <= Z.of_nat (num_active (processes m)) <= int_max ->
  Manager_Create m connector prompt workDir id now
  = Ok (m, (None, Some ErrMaxConcurrent)).
Proof.
  intros [H1 H2]. unfold Manager_Create. rewrite activeCount_spec by done.
  destruct (Z.geb_spec (Z.of_nat (num_active (processes m))) (max_concurrent m));
    [done|lia].
Qed.

Lemma Create_admitted_inv (m m' : Manager) connector prompt workDir id now r :
  Z.of_nat (num_active (processes m)) <= int_max ->
  Manager_Create m connector prompt workDir id now = Ok (m', r) ->
  (r = (None, Some ErrMaxConcurrent) /\ m' = m /\
   max_concurrent m <= Z.of_nat (num_active (processes m))) \/
  (exists p, r = (Some p, None) /\ Status p = StatusPending /\
     Z.of_nat (num_active (processes m)) < max_concurrent m /\
     m' = with_processes (<[id := p]> (processes m)) m /\
     0 <= config.BufferSize (config.Process (mconfig m))).
Proof.
  intros Hmax. unfold Manager_Create. rewrite activeCount_spec by done.
  destruct (Z.geb_spec (Z.of_nat (num_active (processes m))) (max_concurrent m)).
  - intros [= <- <-]. left. done.
  - intros HC. go_inv HC. injection HC as <- <-. right.
    apply NewProcess_inv in E as [? ?]. exists x. done.
Qed.

Lemma create_all_inv (cfg : config.Config) (calls : list create_call) (m : Manager) :
  config.MaxConcurrent (config.Process cfg) <= int_max ->
  mconfig m = cfg ->
  Z.of_nat (num_active (processes m)) <= config.MaxConcurrent (config.Process cfg) ->
  match create_all m calls with
  | Ok m' => mconfig m' = cfg /\
             Z.of_nat (num_active (processes m'))
             <= config.MaxConcurrent (config.Process cfg)
  | Panic _ => config.BufferSize (config.Process cfg) < 0
  end.
Proof.
  intros Hmax. revert m. induction calls as [|c calls IH]; intros m Hcfg Hle; simpl.
  { done. }
  unfold create_one.
  destruct (Manager_Create m (call_connector c) (call_prompt c) (call_workDir c)
              (call_id c) (call_now c)) as [[m' r]|e] eqn:E; simpl.
  - apply Create_admitted_inv in E; [|lia].
    destruct E as [(_ & -> & _) | (p & _ & Hp & Hlt & -> & _)].
    + by apply IH.
    + apply IH; [done|]. simpl.
      pose proof (num_active_insert_le (processes m) (call_id c) p).
      unfold max_concurrent in Hlt. rewrite Hcfg in Hlt. lia.
  - unfold Manager_Create in E. rewrite activeCount_spec in E by lia.
    destruct (_ >=? _); [discriminate|].
    destruct (NewProcess _ _ _ _ _ _) eqn:EN; [discriminate|].
    apply NewProcess_Panic in EN. by rewrite Hcfg in EN.
Qed.

(** C1. With a ceiling that is a non-negative Go int: after any sequence
    of create calls on a new manager the number of pending or running
    jobs is at most the ceiling (the sequence panics only if the
    configured buffer size is negative); a create call made while that
    number is at or above the ceiling returns ErrMaxConcurrent and leaves
    the manager, hence its table, unchanged; a create call that succeeds
    found the number below the ceiling, stores a pending job under the
    new id and keeps the number within the ceiling; and of two create
    calls made one slot below the ceiling (each call is one critical
    section of the manager's mutex, so they run one after the other) the
    first succeeds and the second returns ErrMaxConcurrent. *)
Theorem Create_respects_ceiling (cfg : config.Config) :
  0 <= config.MaxConcurrent (config.Process cfg) <= int_max ->
  (forall calls : list create_call,
     match create_all (NewManager cfg) calls with
     | Ok m => Z.of_nat (num_active (processes m))
               <= config.MaxConcurrent (config.Process cfg)
     | Panic _ => config.BufferSize (config.Process cfg) < 0
     end) /\
  (forall m connector prompt workDir id now,
     mconfig m = cfg ->
     config.MaxConcurrent (config.Process cfg)
       <= Z.of_nat (num_active (processes m)) <= int_max ->
     Manager_Create m connector prompt workDir id now
     = Ok (m, (None, Some ErrMaxConcurrent))) /\
  (forall m connector prompt workDir id now m' p,
     mconfig m = cfg ->
     Z.of_nat (num_active (processes m))
       <= config.MaxConcurrent (config.Process cfg) ->
     Manager_Create m connector prompt workDir id now = Ok (m', (Some p, None)) ->
     Z.of_nat (num_active (processes m))
       < config.MaxConcurrent (config.Process cfg) /\
     Status p = StatusPending /\
     processes m' = <[id := p]> (processes m) /\
     Z.of_nat (num_active (processes m'))
       <= config.MaxConcurrent (config.Process cfg)) /\
  (forall m c1 c2,
     mconfig m = cfg ->
     0 <= config.BufferSize (config.Process cfg) ->
     Z.of_nat (num_active (processes m)) + 1
       = config.MaxConcurrent (config.Process cfg) ->
     processes m !! call_id c1 = None ->
     exists m1 p,
       create_one m c1 = Ok (m1, (Some p, None)) /\
       create_one m1 c2 = Ok (m1, (None, Some ErrMaxConcurrent))).
Proof.
  intros [Hc0 Hc1]. split; [|split; [|split]].
  - intros calls.
    pose proof (create_all_inv cfg calls (NewManager cfg) Hc1 eq_refl) as H.
    simpl in H. rewrite num_active_empty in H. specialize (H Hc0).
    destruct (create_all (NewManager cfg) calls); tauto.
  - intros m connector prompt workDir id now Hcfg H.
    apply Create_refused. unfold max_concurrent. by rewrite Hcfg.
  - intros m connector prompt workDir id now m' p Hcfg Hle H.
    apply Create_admitted_inv in H; [|lia].
    destruct H as [(? & _) | (p' & E & Hp & Hlt & -> & _)]; [discriminate|].
    injection E as <-. unfold max_concurrent in Hlt. rewrite Hcfg in Hlt.
    simpl. repeat split; try done.
    pose proof (num_active_insert_le (processes m) id p). lia.
  - intros m c1 c2 Hcfg Hbuf Hone Hfresh. unfold create_one.
    destruct (NewProcess_Ok (call_id c1) (call_connector c1) (call_prompt c1)
                (call_workDir c1) _ (call_now c1) Hbuf) as (p & EN & Hp).
    exists (with_processes (<[call_id c1 := p]> (processes m)) m), p. split.
    + unfold Manager_Create. rewrite activeCount_spec by lia.
      unfold max_concurrent. rewrite Hcfg.
      destruct (Z.geb_spec (Z.of_nat (num_active (processes m)))
                  (config.MaxConcurrent (config.Process cfg))); [lia|].
      by rewrite EN.
    + apply Create_refused. unfold max_concurrent. simpl. rewrite Hcfg.
      rewrite num_active_insert_None by done.
      unfold is_active. rewrite Hp. simpl. lia.
Qed.

Lemma Create_respects_ceiling_witness :
  0 <= config.MaxConcurrent (config.Process sampleConfig) <= int_max /\
  forall calls : list create_call,
    match create_all (NewManager sampleConfig) calls with
    | Ok m => Z.of_nat (num_active (processes m))
              <= config.MaxConcurrent (config.Process sampleConfig)
    | Panic _ => config.BufferSize (config.Process sampleConfig) < 0
    end.
Proof.
  assert (H : 0 <= config.MaxConcurrent (config.Process sampleConfig) <= int_max)
    by (unfold int_max; simpl; lia).
  split; [exact H|].
  exact (proj1 (Create_respects_ceiling sampleConfig H)).
Defined.

Example create_third_refused :
  exists m,
    create_all (NewManager sampleConfig)
      [mkCall "claude" "a" EmptyString "id-1" 1; mkCall "claude" "b" EmptyString "id-2" 2] = Ok m /\
    Manager_Count m = 2 /\
    Manager_Create m "claude" "c" EmptyString "id-3" 3
    = Ok (m, (None, Some ErrMaxConcurrent)).
Proof.
  eexists. split; [vm_compute; reflexivity|]. split; vm_compute; reflexivity.
Qed.

(** *** Remove *)

(** C6. Remove returns ErrProcessNotFound and changes nothing when the id
    is absent; returns the error "cannot remove active process" (the
    ConflictError of the specification) and changes nothing, so that the
    job stays in the table, when the job is pending or running; and when
    the job is completed, failed or stopped it returns no error and
    deletes the job from the table, after which Get does not find it. *)
Theorem Remove_spec (m : Manager) (id : string) :
  (processes m !! id = None ->
   Manager_Remove m id = (m, Some ErrProcessNotFound)) /\
  (forall p, processes m !! id = Some p ->
     Status p = StatusPending \/ Status p = StatusRunning ->
     Manager_Remove m id = (m, Some (errors_New "cannot remove active process")) /\
     Manager_Get (Manager_Remove m id).1 id = (Some p, None)) /\
  (forall p, processes m !! id = Some p ->
     Status p = StatusCompleted \/ Status p = StatusFailed \/
     Status p = StatusStopped ->
     Manager_Remove m id = (with_processes (delete id (processes m)) m, None) /\
     Manager_Get (Manager_Remove m id).1 id = (None, Some ErrProcessNotFound) /\
     forall id', id' <> id ->
       processes (Manager_Remove m id).1 !! id' = processes m !! id').
Proof.
  unfold Manager_Remove. split; [|split].
  - intros H. by rewrite H.
  - intros p H Hs. rewrite H.
    assert (E : negb (Status p =? StatusCompleted)%string
                && negb (Status p =? StatusFailed)%string
                && negb (Status p =? StatusStopped)%string = true)
      by (destruct Hs as [-> | ->]; reflexivity).
    rewrite E. split; [done|]. simpl. unfold Manager_Get. by rewrite H.
  - intros p H Hs. rewrite H.
    assert (E : negb (Status p =? StatusCompleted)%string
                && negb (Status p =? StatusFailed)%string
                && negb (Status p =? StatusStopped)%string = false)
      by (destruct Hs as [-> | [-> | ->]]; reflexivity).
    rewrite E. split; [done|]. simpl. unfold Manager_Get. simpl.
    rewrite lookup_delete_eq. split; [done|].
    intros id' Hne. by rewrite lookup_delete_ne.
Qed.

Lemma Remove_spec_witness :
  processes sampleManager !! "job-1" = Some stoppedJob /\
  (Status stoppedJob = StatusCompleted \/ Status stoppedJob = StatusFailed \/
   Status stoppedJob = StatusStopped) /\
  Manager_Remove sampleManager "job-1"
    = (with_processes (delete "job-1" (processes sampleManager)) sampleManager, None) /\
  Manager_Get (Manager_Remove sampleManager "job-1").1 "job-1"
    = (None, Some ErrProcessNotFound) /\
  forall id', id' <> "job-1" ->
    processes (Manager_Remove sampleManager "job-1").1 !! id'
    = processes sampleManager !! id'.
Proof.
  assert (H1 : processes sampleManager !! "job-1" = Some stoppedJob) by reflexivity.
  assert (H2 : Status stoppedJob = StatusCompleted \/ Status stoppedJob = StatusFailed \/
               Status stoppedJob = StatusStopped) by (right; right; reflexivity).
  split; [exact H1|]. split; [exact H2|].
  exact (proj2 (proj2 (Remove_spec sampleManager "job-1")) stoppedJob H1 H2).
Defined.

(** *** Cleanup *)

Lemma time_Sub_ge (now t T : Z) :
  int_min < T <= int_max -> (time_Sub now t >=? T) = (t + T <=? now).
Proof.
  intros H. unfold time_Sub.
  destruct (Z.geb_spec (Z.max int_min (Z.min int_max (now - t))) T),
           (Z.leb_spec (t + T) now); try done; lia.
Qed.

Lemma cleanup_entry_spec now T id p acc :
  int_min < T <= int_max ->
  cleanup_entry now T id p acc = if swept T now p then delete id acc else acc.
Proof.
  intros H. unfold cleanup_entry, swept, is_terminal.
  destruct (Status p =? StatusCompleted)%string,
           (Status p =? StatusFailed)%string,
           (Status p =? StatusStopped)%string; simpl;
    destruct (CompletedAt p); try done; by rewrite time_Sub_ge.
Qed.

Lemma cleanup_fold_lookup now T (acc0 ps : gmap string Process) id :
  int_min < T <= int_max ->
  map_fold (cleanup_entry now T) acc0 ps !! id =
  match ps !! id with
  | Some p => if swept T now p then None else acc0 !! id
  | None => acc0 !! id
  end.
Proof.
  intros HT. revert id.
  apply (map_fold_weak_ind
    (fun r m => forall id, r !! id =
       match m !! id with
       | Some p => if swept T now p then None else acc0 !! id
       | None => acc0 !! id
       end)).
  - intros id. by rewrite lookup_empty.
  - intros i p m r Hi IH id. rewrite cleanup_entry_spec by done.
    destruct (decide (i = id)) as [->|Hne].
    + rewrite lookup_insert_eq. destruct (swept T now p).
      * apply lookup_delete_eq.
      * by rewrite IH, Hi.
    + rewrite lookup_insert_ne by done. destruct (swept T now p).
      * rewrite lookup_delete_ne by done. apply IH.
      * apply IH.
Qed.

Lemma cleanup_lookup (m : Manager) (now : Time) (id : string) :
  int_min < cleanup_delay m <= int_max ->
  processes (Manager_cleanup m now) !! id =
  match processes m !! id with
  | Some p => if swept (cleanup_delay m) now p then None else Some p
  | None => None
  end.
Proof.
  intros HT. unfold Manager_cleanup. simpl.
  rewrite (cleanup_fold_lookup now _ _ _ id HT).
  by destruct (processes m !! id).
Qed.

Lemma cleanup_filter (m : Manager) (now : Time) :
  int_min < cleanup_delay m <= int_max ->
  processes (Manager_cleanup m now) =
  filter (fun kv => swept (cleanup_delay m) now kv.2 = false) (processes m).
Proof.
  intros HT. apply map_eq. intros id. rewrite cleanup_lookup by done.
  destruct (processes m !! id) as [p|] eqn:E.
  - destruct (swept (cleanup_delay m) now p) eqn:Es; symmetry.
    + apply map_lookup_filter_None. right. intros x Hx. simpl. congruence.
    + apply map_lookup_filter_Some. done.
  - symmetry. apply map_lookup_filter_None. by left.
Qed.

Lemma cleanup_config (m : Manager) (now : Time) :
  mconfig (Manager_cleanup m now) = mconfig m.
Proof. done. Qed.

Lemma sweeps_gone (ticks : list Time) (m : Manager) id :
  int_min < cleanup_delay m <= int_max ->
  processes m !! id = None ->
  processes (foldl Manager_cleanup m ticks) !! id = None.
Proof.
  revert m. induction ticks as [|tick ticks IH]; intros m HT Hn; [done|].
  simpl. apply IH; [done|]. by rewrite cleanup_lookup, Hn.
Qed.

(** A run of sweeps removes a terminal job completed at [t] exactly when
    one of them runs at or after [t + T]. *)
Lemma sweeps_lookup (ticks : list Time) (m : Manager) id p t :
  int_min < cleanup_delay m <= int_max ->
  processes m !! id = Some p -> is_terminal p = true -> CompletedAt p = Some t ->
  processes (foldl Manager_cleanup m ticks) !! id =
  if existsb (fun tick => t + cleanup_delay m <=? tick) ticks then None else Some p.
Proof.
  intros HT Hp Ht Hc. revert m HT Hp.
  induction ticks as [|tick ticks IH]; intros m HT Hp; [done|].
  simpl. destruct (t + cleanup_delay m <=? tick) eqn:E; simpl.
  - apply sweeps_gone; [done|].
    rewrite cleanup_lookup, Hp by done. unfold swept. by rewrite Ht, Hc, E.
  - apply (IH (Manager_cleanup m tick)); [done|].
    rewrite cleanup_lookup, Hp by done. unfold swept. by rewrite Ht, Hc, E.
Qed.

Lemma tick_times_exists (start T obs bound : Z) :
  0 < T ->
  existsb (fun tick => bound <=? tick) (tick_times start T obs) = true <->
  exists k : nat, (1 <= k)%nat /\ bound <= start + Z.of_nat k * T <= obs.
Proof.
  intros HT. rewrite existsb_exists. unfold tick_times. split.
  - intros (tick & Hin & Hle). apply list_elem_of_In in Hin.
    apply list_elem_of_fmap in Hin as (k & -> & Hk). apply elem_of_seq in Hk.
    exists k. split; [lia|]. apply Z.leb_le in Hle. split; [done|].
    assert (Hk' : Z.of_nat k <= (obs - start) / T) by lia.
    pose proof (Z.mul_div_le (obs - start) T HT). nia.
  - intros (k & Hk & Hb & Ho). exists (start + Z.of_nat k * T). split.
    + apply list_elem_of_In. apply list_elem_of_fmap. exists k. split; [done|].
      apply elem_of_seq.
      assert (Z.of_nat k <= (obs - start) / T)
        by (apply Z.div_le_lower_bound; lia).
      lia.
    + by apply Z.leb_le.
Qed.

Lemma tick_within_two_periods (start T t obs : Z) :
  0 < T -> start <= t -> t + 2 * T <= obs ->
  exists k : nat, (1 <= k)%nat /\ t + T <= start + Z.of_nat k * T <= obs.
Proof.
  intros HT Hs Ho. set (d := t - start). set (c := (d + T - 1) / T).
  assert (Hc0 : 0 <= c) by (apply Z.div_pos; lia).
  pose proof (Z.mul_div_le (d + T - 1) T HT) as H1.
  pose proof (Z.mod_pos_bound (d + T - 1) T HT) as H2.
  pose proof (Z.div_mod (d + T - 1) T ltac:(lia)) as H3.
  fold c in H1, H3.
  exists (Z.to_nat (c + 1)). split; [lia|]. rewrite Z2Nat.id by lia. nia.
Qed.

(** C9, as amended. One sweep, run at time [now] with a cleanup interval
    T (a Duration, above its minimum), keeps exactly the jobs that are
    not both terminal and completed at least T before [now]: it never
    removes a pending or running job, a job without completion time, or a
    terminal job completed less than T ago. For a terminal job completed
    at time t: a sweep run before t + T leaves it retrievable through
    Get, a sweep run at or after t + T removes it. Under the ticker of
    StartCleanup, started at [start] and observed at [now] with the
    sweeps as the only writers, the job is absent exactly when some tick
    start + k*T (k >= 1) falls between t + T and [now]; so it is absent
    from t + 2T on, and can still be retrievable after t + T until the
    next tick. *)
Theorem cleanup_sweep (m : Manager) (now : Time) :
  int_min < cleanup_delay m <= int_max ->
  processes (Manager_cleanup m now)
    = filter (fun kv => swept (cleanup_delay m) now kv.2 = false) (processes m) /\
  (forall id p, processes m !! id = Some p ->
     Status p = StatusPending \/ Status p = StatusRunning \/ CompletedAt p = None ->
     processes (Manager_cleanup m now) !! id = Some p) /\
  (forall id p t,
     processes m !! id = Some p -> is_terminal p = true ->
     CompletedAt p = Some t ->
     (now < t + cleanup_delay m ->
      Manager_Get (Manager_cleanup m now) id = (Some p, None)) /\
     (t + cleanup_delay m <= now ->
      Manager_Get (Manager_cleanup m now) id = (None, Some ErrProcessNotFound)) /\
     (forall start m', Manager_StartCleanup m start now = Ok m' ->
        (Manager_Get m' id = (None, Some ErrProcessNotFound) <->
         exists k : nat, (1 <= k)%nat /\
           t + cleanup_delay m <= start + Z.of_nat k * cleanup_delay m <= now) /\
        (Manager_Get m' id = (Some p, None) <->
         ~ exists k : nat, (1 <= k)%nat /\
           t + cleanup_delay m <= start + Z.of_nat k * cleanup_delay m <= now) /\
        (start <= t -> t + 2 * cleanup_delay m <= now ->
         Manager_Get m' id = (None, Some ErrProcessNotFound)))).
Proof.
  intros HT. split; [by apply cleanup_filter|]. split.
  - intros id p Hp Hs. rewrite cleanup_lookup, Hp by done.
    assert (E : swept (cleanup_delay m) now p = false); [|by rewrite E].
    unfold swept, is_terminal.
    destruct Hs as [-> | [-> | ->]]; [done|done|]. apply andb_false_r.
  - intros id p t Hp Ht Hc. split; [|split].
    + intros Hlt. unfold Manager_Get. rewrite cleanup_lookup, Hp by done.
      unfold swept. rewrite Ht, Hc. simpl.
      destruct (Z.leb_spec (t + cleanup_delay m) now); [lia|done].
    + intros Hle. unfold Manager_Get. rewrite cleanup_lookup, Hp by done.
      unfold swept. rewrite Ht, Hc. simpl.
      destruct (Z.leb_spec (t + cleanup_delay m) now); [done|lia].
    + intros start m' H. unfold Manager_StartCleanup in H. fold (cleanup_delay m) in H.
      destruct (Z.leb_spec (cleanup_delay m) 0) as [|Hpos]; [discriminate|].
      injection H as <-.
      pose proof (tick_times_exists start (cleanup_delay m) now
                    (t + cleanup_delay m) Hpos) as Hex.
      pose proof (sweeps_lookup (tick_times start (cleanup_delay m) now)
                    m id p t HT Hp Ht Hc) as Hl.
      unfold Manager_Get. rewrite Hl.
      destruct (existsb _ _) eqn:E.
      * assert (Hk := proj1 Hex eq_refl). split; [tauto|]. split.
        { split; [discriminate|tauto]. }
        done.
      * assert (Hk : ~ exists k : nat, (1 <= k)%nat /\
                  t + cleanup_delay m <= start + Z.of_nat k * cleanup_delay m <= now).
        { intros Hk. apply Hex in Hk. discriminate. }
        split; [split; [discriminate|tauto]|]. split; [tauto|].
        intros Hs Ho. destruct Hk.
        by apply tick_within_two_periods.
Qed.

Lemma cleanup_sweep_witness :
  int_min < cleanup_delay sampleManager <= int_max /\
  processes (Manager_cleanup sampleManager (15 * Second))
    = filter (fun kv => swept (cleanup_delay sampleManager) (15 * Second) kv.2
                        = false)
        (processes sampleManager) /\
  Manager_Get (Manager_cleanup sampleManager (15 * Second)) "job-1"
    = (None, Some ErrProcessNotFound).
Proof.
  assert (H : int_min < cleanup_delay sampleManager <= int_max)
    by (change (cleanup_delay sampleManager) with (10 * Second);
        unfold int_min, int_max, Second; lia).
  split; [exact H|].
  split; [exact (proj1 (cleanup_sweep sampleManager (15 * Second) H))|].
  refine (proj1 (proj2 (proj2 (proj2 (cleanup_sweep sampleManager (15 * Second) H))
            "job-1" stoppedJob (5 * Second) _ _ _)) _).
  - reflexivity.
  - reflexivity.
  - reflexivity.
  - change (cleanup_delay sampleManager) with (10 * Second). lia.
Defined.

(** C9, counterexample. Cleanup interval T = 10 s, ticker started at 0, a
    job stopped at t = 5 s. The only tick up to 16 s = t + T + 1 s is the
    one at 10 s, when the job is 5 s old and is kept; so at t + T + 1 s
    Get still returns the job, which the claim has absent. *)
Lemma sweep_tick_phase_counterexample :
  (exists m', Manager_StartCleanup sampleManager 0 (16 * Second) = Ok m' /\
              Manager_Get m' "job-1" = (Some stoppedJob, None)) /\
  ~ (forall (m m' : Manager) (start : Time) (id : string) (p : Process)
            (t eps : Z),
       processes m !! id = Some p -> is_terminal p = true ->
       CompletedAt p = Some t -> start <= t -> 0 < eps ->
       Manager_StartCleanup m start (t + cleanup_delay m + eps) = Ok m' ->
       Manager_Get m' id = (None, Some ErrProcessNotFound)).
Proof.
  assert (E : Manager_StartCleanup sampleManager 0 (16 * Second)
              = Ok sampleManager) by (vm_compute; reflexivity).
  split.
  - exists sampleManager. split; [exact E|]. reflexivity.
  - intros H.
    assert (Hlt1 : 0 <= 5 * Second) by (unfold Second; lia).
    assert (Hlt2 : 0 < 1 * Second) by (unfold Second; lia).
    pose proof (H sampleManager sampleManager 0 "job-1" stoppedJob
                  (5 * Second) (1 * Second)
                  eq_refl eq_refl eq_refl Hlt1 Hlt2 E) as Hc.
    discriminate Hc.
Qed.

(** * Further properties *)

(** ** Ring buffer: partial fill and Clear *)

Lemma Push_shape {T : Type} (rb rb' : RingBuffer T) (x : T) :
  Push rb x = Ok rb' ->
  rb_size rb' = rb_size rb /\ length (rb_data rb') = length (rb_data rb).
Proof.
  unfold Push, index_set. intros H. go_inv H.
  destruct (_ && _); [|discriminate]. injection E as <-.
  injection H as <-. simpl. by rewrite length_insert.
Qed.

Lemma PushAll_shape {T : Type} (items : list T) (rb rb' : RingBuffer T) :
  PushAll rb items = Ok rb' ->
  rb_size rb' = rb_size rb /\ length (rb_data rb') = length (rb_data rb).
Proof.
  revert rb. induction items as [|x items IH]; intros rb H; simpl in H.
  - by injection H as <-.
  - go_inv H. apply Push_shape in E as [E1 E2]. apply IH in H as [H1 H2].
    split; congruence.
Qed.

(** X1. For a ring buffer of capacity c >= 1 (a Go int) and any number of
    pushes: the snapshot holds the last min(n, c) items pushed, oldest
    first; Len is the length of the snapshot and never exceeds the
    capacity; and while no more than c items were pushed the snapshot is
    exactly the items pushed, so the unused slots never show. *)
Theorem ring_snapshot_any_fill {T : Type} (zero : T) (c : Z) (rb0 : RingBuffer T) :
  1 <= c <= int_max ->
  NewRingBuffer zero c = Ok rb0 ->
  forall items : list T, exists rb snapshot,
    PushAll rb0 items = Ok rb /\
    ToSlice zero rb = Ok snapshot /\
    snapshot = drop (length items - Z.to_nat c)%nat items /\
    Len rb = Z.of_nat (length snapshot) /\
    Len rb = Z.min (Z.of_nat (length items)) c /\
    ((length items <= Z.to_nat c)%nat -> snapshot = items).
Proof.
  intros [Hc1 Hc2] H0 items.
  destruct (rb_repr_new zero c Hc1) as (rb0' & E0 & R0).
  rewrite H0 in E0. injection E0 as <-.
  assert (Hn : (1 <= Z.to_nat c)%nat) by lia.
  assert (Hm : Z.of_nat (Z.to_nat c) <= int_max) by lia.
  destruct (PushAll_repr zero (Z.to_nat c) [] items rb0 Hn Hm R0) as (rb & E & R).
  simpl in R. exists rb, (window (Z.to_nat c) items).
  split; [done|]. split; [by apply ToSlice_repr|]. split; [done|].
  rewrite (rb_repr_Len zero _ _ _ R), window_length.
  split; [done|]. split; [lia|].
  intros Hle. by apply window_short.
Qed.

Lemma ring_snapshot_any_fill_witness :
  1 <= 3 <= int_max /\
  NewRingBuffer 0%nat 3 = Ok (mkRingBuffer (replicate 3 0%nat) 3 0 0) /\
  exists rb snapshot,
    PushAll (mkRingBuffer (replicate 3 0%nat) 3 0 0) [7; 8]%nat = Ok rb /\
    ToSlice 0%nat rb = Ok snapshot /\
    snapshot = drop (length [7; 8]%nat - Z.to_nat 3)%nat [7; 8]%nat /\
    Len rb = Z.of_nat (length snapshot) /\
    Len rb = Z.min (Z.of_nat (length [7; 8]%nat)) 3 /\
    ((length [7; 8]%nat <= Z.to_nat 3)%nat -> snapshot = [7; 8]%nat).
Proof.
  assert (H : 1 <= 3 <= int_max) by (unfold int_max; lia).
  assert (H0 : NewRingBuffer 0%nat 3 = Ok (mkRingBuffer (replicate 3 0%nat) 3 0 0))
    by reflexivity.
  split; [exact H|]. split; [exact H0|].
  exact (ring_snapshot_any_fill 0%nat 3 _ H H0 [7; 8]%nat).
Defined.

(** X2. Clear takes a buffer, in whatever state pushes have left it, back
    to the state NewRingBuffer returned: every slot holds the zero value
    again, head and count are 0, and the snapshot is empty. Pushes after
    a Clear therefore behave as on a new buffer. *)
Theorem ring_clear_restores_new {T : Type} (zero : T) (c : Z)
    (rb0 rb : RingBuffer T) (items : list T) :
  NewRingBuffer zero c = Ok rb0 ->
  PushAll rb0 items = Ok rb ->
  Clear zero rb = rb0 /\
  ToSlice zero (Clear zero rb) = Ok [] /\
  Len (Clear zero rb) = 0 /\
  forall more, PushAll (Clear zero rb) more = PushAll rb0 more.
Proof.
  intros H0 H.
  assert (E : Clear zero rb = rb0).
  { apply PushAll_shape in H as [H1 H2].
    unfold NewRingBuffer, make in H0. destruct (c <? 0); [discriminate|].
    simpl in H0. injection H0 as <-. unfold Clear. simpl in *.
    rewrite H1, H2, length_replicate. done. }
  rewrite E. split; [done|].
  unfold NewRingBuffer, make in H0. destruct (c <? 0); [discriminate|].
  simpl in H0. injection H0 as <-. done.
Qed.

Lemma ring_clear_restores_new_witness :
  NewRingBuffer 0%nat 2 = Ok (mkRingBuffer (replicate 2 0%nat) 2 0 0) /\
  exists rb,
    PushAll (mkRingBuffer (replicate 2 0%nat) 2 0 0) [1; 2; 3]%nat = Ok rb /\
    Clear 0%nat rb = mkRingBuffer (replicate 2 0%nat) 2 0 0 /\
    ToSlice 0%nat (Clear 0%nat rb) = Ok [] /\
    Len (Clear 0%nat rb) = 0 /\
    forall more, PushAll (Clear 0%nat rb) more
                 = PushAll (mkRingBuffer (replicate 2 0%nat) 2 0 0) more.
Proof.
  assert (H0 : NewRingBuffer 0%nat 2 = Ok (mkRingBuffer (replicate 2 0%nat) 2 0 0))
    by reflexivity.
  split; [exact H0|].
  eexists. split; [reflexivity|].
  exact (ring_clear_restores_new 0%nat 2 _ _ [1; 2; 3]%nat H0 eq_refl).
Defined.

(** ** Process: subscriptions, Close, sequences of events *)

Lemma set_subscribers_same (p : Process) : set_subscribers (subscribers p) p = p.
Proof. by destruct p. Qed.

(** X3. Subscribe registers a new, empty, open channel of capacity 100
    under the subscriber id and touches no other subscriber; Unsubscribe
    of that id then removes it again, and when the id was not subscribed
    before, Subscribe followed by Unsubscribe gives back the process
    exactly as it was. *)
Theorem Subscribe_Unsubscribe_roundtrip (p : Process) (id : string) :
  subscribers p !! id = None ->
  subscribers (Subscribe p id) !! id = Some (make_chan 100) /\
  (forall id', id' <> id ->
     subscribers (Subscribe p id) !! id' = subscribers p !! id') /\
  Unsubscribe (Subscribe p id) id = Ok p.
Proof.
  intros Hn. unfold Subscribe. simpl. split; [apply lookup_insert_eq|].
  split; [intros id' Hne; by rewrite lookup_insert_ne|].
  unfold Unsubscribe. simpl. rewrite lookup_insert_eq. simpl.
  rewrite delete_insert_eq, delete_id by done.
  by destruct p.
Qed.

Lemma Subscribe_Unsubscribe_roundtrip_witness :
  subscribers sampleProcess !! "reader" = None /\
  subscribers (Subscribe sampleProcess "reader") !! "reader" = Some (make_chan 100) /\
  (forall id', id' <> "reader" ->
     subscribers (Subscribe sampleProcess "reader") !! id'
     = subscribers sampleProcess !! id') /\
  Unsubscribe (Subscribe sampleProcess "reader") "reader" = Ok sampleProcess.
Proof.
  assert (H : subscribers sampleProcess !! "reader" = None) by reflexivity.
  split; [exact H|].
  exact (Subscribe_Unsubscribe_roundtrip sampleProcess "reader" H).
Defined.

Lemma close_all_from_Ok (acc0 subs s' : gmap string Chan) :
  map_fold
    (fun id ch acc => cur ← acc; _ ← close_chan ch; Ok (delete id cur))
    (Ok acc0) subs = Ok s' ->
  s' = acc0 ∖ subs.
Proof.
  revert s'.
  apply (map_fold_weak_ind
    (fun r m => forall s', r = Ok s' -> s' = acc0 ∖ m)).
  - intros s' [= <-]. by rewrite (right_id_L ∅ (∖)).
  - intros i x m r Hi IH s' H. go_inv H. injection H as <-.
    rewrite (IH _ E). apply map_eq. intros j.
    destruct (decide (i = j)) as [->|Hne].
    + rewrite lookup_delete_eq. symmetry. apply lookup_difference_None. right.
      rewrite lookup_insert_eq. eauto.
    + rewrite lookup_delete_ne by done.
      rewrite !lookup_difference. by rewrite lookup_insert_ne.
Qed.

Lemma close_all_Ok_empty (subs s' : gmap string Chan) :
  close_all subs = Ok s' -> s' = ∅.
Proof.
  intros H. apply close_all_from_Ok in H as ->.
  apply map_eq. intros i. rewrite lookup_empty. apply lookup_difference_None.
  destruct (subs !! i); eauto.
Qed.

(** X4. Unsubscribe of an id that is not subscribed returns the process
    unchanged, without panicking: so a second Unsubscribe of the same id
    does nothing, and Unsubscribe after Close (which has removed every
    subscriber) does nothing either. *)
Theorem Unsubscribe_idempotent (p : Process) (id : string) :
  (subscribers p !! id = None -> Unsubscribe p id = Ok p) /\
  (forall p', Unsubscribe p id = Ok p' ->
     subscribers p' !! id = None /\ Unsubscribe p' id = Ok p') /\
  (forall now p', Close p now = Ok p' -> Unsubscribe p' id = Ok p').
Proof.
  split; [|split].
  - intros H. unfold Unsubscribe. by rewrite H.
  - intros p' H. apply Unsubscribe_inv in H as ->. simpl.
    split; [apply lookup_delete_eq|].
    unfold Unsubscribe. simpl. by rewrite lookup_delete_eq.
  - intros now p' H. apply Close_inv in H as (subs & Hc & _ & _ & Hs & _).
    apply close_all_Ok_empty in Hc. subst subs.
    unfold Unsubscribe. by rewrite Hs, lookup_empty.
Qed.

Lemma Close_ok_open (p : Process) (now : Time) :
  subs_open (subscribers p) -> exists p', Close p now = Ok p'.
Proof.
  intros Hopen. unfold Close.
  destruct (done p); simpl; rewrite close_all_open by done; simpl; eauto.
Qed.

(** [Close_recv] is [Close] with one more result: on every process, the
    two panic together, and otherwise return the same process. *)
Lemma close_all_recv_fst (subs : gmap string Chan) :
  close_all_recv subs ≫= (fun st => Ok st.1) = close_all subs.
Proof.
  unfold close_all_recv, close_all. rewrite !map_fold_foldr.
  generalize subs at 1 3. intros acc0.
  induction (map_to_list subs) as [|[id ch] l IH]; [done|].
  simpl. rewrite <- IH.
  destruct (foldr _ (Ok (acc0, ∅)) l) as [st|e]; [|done]. simpl.
  by destruct (close_chan ch).
Qed.

Lemma Close_recv_fst (p : Process) (now : Time) :
  Close_recv p now ≫= (fun st => Ok st.1) = Close p now.
Proof.
  unfold Close_recv, Close. cbv zeta. rewrite <- close_all_recv_fst.
  by destruct (close_all_recv _) as [st|e].
Qed.

Lemma close_all_recv_from (acc0 subs : gmap string Chan) :
  subs_open subs ->
  map_fold
    (fun id ch acc =>
       st ← acc; ch' ← close_chan ch;
       Ok (delete id st.1, <[id := ch']> st.2))
    (Ok (acc0, ∅)) subs
  = Ok (acc0 ∖ subs, chan_closed <$> subs).
Proof.
  apply (map_fold_weak_ind
    (fun r m => subs_open m -> r = Ok (acc0 ∖ m, chan_closed <$> m))).
  - intros _. by rewrite (right_id_L ∅ (∖)), fmap_empty.
  - intros i x m r Hi IH Hopen.
    rewrite IH.
    + simpl. unfold close_chan. rewrite (Hopen i x) by apply lookup_insert_eq.
      simpl. rewrite fmap_insert. f_equal. f_equal. apply map_eq. intros j.
      destruct (decide (i = j)) as [->|Hne].
      * rewrite lookup_delete_eq. symmetry. apply lookup_difference_None. right.
        rewrite lookup_insert_eq. eauto.
      * rewrite lookup_delete_ne by done.
        rewrite !lookup_difference. by rewrite lookup_insert_ne.
    + intros j ch Hj. apply (Hopen j). rewrite lookup_insert_ne; [done|]. congruence.
Qed.

Lemma close_all_recv_open (subs : gmap string Chan) :
  subs_open subs -> close_all_recv subs = Ok (∅, chan_closed <$> subs).
Proof.
  intros H. unfold close_all_recv. rewrite close_all_recv_from by done.
  f_equal. f_equal. apply map_eq. intros i. rewrite lookup_empty.
  apply lookup_difference_None. destruct (subs !! i); eauto.
Qed.

(** On open channels [Close_recv] returns the process [Close] returns,
    and each channel of the table, closed. *)
Lemma Close_recv_open (p : Process) (now : Time) :
  subs_open (subscribers p) ->
  exists p', Close p now = Ok p' /\
    Close_recv p now = Ok (p', chan_closed <$> subscribers p).
Proof.
  intros Hopen. unfold Close, Close_recv.
  destruct (done p); simpl;
    rewrite close_all_open, close_all_recv_open by done; simpl; eauto.
Qed.

(** X5. On a process whose subscriber channels are open, Close returns:
    it closes the done channel, closes every subscriber channel (each is
    found closed by its subscriber afterwards, with the events queued in
    it still there to be received) and removes it from the table, and sets
    completedAt to the instant of the call unless it was already set;
    status, buffered events, result and result cache are left alone. A
    second Close changes nothing and closes no channel, so none is closed
    twice. *)
Theorem Close_once (p : Process) (now : Time) :
  subs_open (subscribers p) ->
  exists p' closed, Close p now = Ok p' /\
    Close_recv p now = Ok (p', closed) /\
    dom closed = dom (subscribers p) /\
    (forall id ch, subscribers p !! id = Some ch ->
       exists ch', closed !! id = Some ch' /\ ch_closed ch' = true /\
         ch_buf ch' = ch_buf ch /\ ch_cap ch' = ch_cap ch) /\
    subscribers p' = ∅ /\ done p' = true /\
    CompletedAt p' = Some (default now (CompletedAt p)) /\
    Status p' = Status p /\ events p' = events p /\ result p' = result p /\
    resultData p' = resultData p /\ resultExpiry p' = resultExpiry p /\
    forall now', Close p' now' = Ok p' /\ Close_recv p' now' = Ok (p', ∅).
Proof.
  intros Hopen.
  destruct (Close_recv_open p now Hopen) as (p' & E & ER).
  exists p', (chan_closed <$> subscribers p).
  split; [done|]. split; [done|]. split; [apply dom_fmap_L|]. split.
  { intros id ch Hid. exists (chan_closed ch).
    by rewrite lookup_fmap, Hid. }
  pose proof (Close_inv p p' now E) as (subs & Hc & HS & He & Hs & Hr & Hd & Hx & Hdn & Hca).
  rewrite close_all_open in Hc by done. injection Hc as <-.
  repeat (split; [first [done | by rewrite Hca; destruct (CompletedAt p)]|]).
  intros now'. unfold Close, Close_recv. rewrite Hdn, Hs.
  unfold close_all, close_all_recv.
  rewrite !map_fold_empty. simpl. rewrite Hca, <- Hs.
  destruct (CompletedAt p); by rewrite set_subscribers_same.
Qed.

Lemma Close_once_witness :
  subs_open (subscribers sampleAudience) /\
  exists p' closed, Close sampleAudience 7 = Ok p' /\
    Close_recv sampleAudience 7 = Ok (p', closed) /\
    dom closed = dom (subscribers sampleAudience) /\
    (forall id ch, subscribers sampleAudience !! id = Some ch ->
       exists ch', closed !! id = Some ch' /\ ch_closed ch' = true /\
         ch_buf ch' = ch_buf ch /\ ch_cap ch' = ch_cap ch) /\
    subscribers p' = ∅ /\ done p' = true /\
    CompletedAt p' = Some (default 7 (CompletedAt sampleAudience)) /\
    Status p' = Status sampleAudience /\ events p' = events sampleAudience /\
    result p' = result sampleAudience /\
    resultData p' = resultData sampleAudience /\
    resultExpiry p' = resultExpiry sampleAudience /\
    forall now', Close p' now' = Ok p' /\ Close_recv p' now' = Ok (p', ∅).
Proof.
  split; [exact sampleAudience_open|].
  exact (Close_once sampleAudience 7 sampleAudience_open).
Defined.

(** *** Sequences of events *)

Lemma deliver_all_buf (es : list Event) (ch : Chan) :
  let ch' := foldl (fun ch e => deliver e ch) ch es in
  ch_buf ch' = ch_buf ch ++ take (ch_cap ch - length (ch_buf ch))%nat es /\
  ch_cap ch' = ch_cap ch /\
  (ch_closed ch = false -> ch_closed ch' = false).
Proof.
  revert ch. induction es as [|e es IH]; intros ch; simpl.
  { rewrite take_nil, app_nil_r. done. }
  destruct (IH (deliver e ch)) as (Hb & Hc & Ho).
  rewrite Hb, Hc. unfold deliver in *.
  destruct (Nat.ltb_spec (length (ch_buf ch)) (ch_cap ch)); simpl in *.
  - rewrite length_app. simpl.
    destruct (ch_cap ch - length (ch_buf ch))%nat as [|k] eqn:Ek; [lia|].
    simpl. rewrite <- app_assoc. simpl.
    replace (ch_cap ch - (length (ch_buf ch) + 1))%nat with k by lia.
    split; [done|]. split; [done|]. intros _. by apply Ho.
  - replace (ch_cap ch - length (ch_buf ch))%nat with 0%nat by lia.
    rewrite take_0. done.
Qed.

Lemma AddEvents_spec (es : list Event) (p : Process) (c : nat) (hist : list Event) :
  (1 <= c)%nat -> Z.of_nat c <= int_max ->
  rb_repr zeroEvent c hist (events p) ->
  subs_open (subscribers p) ->
  exists buf,
    rb_repr zeroEvent c (hist ++ es) buf /\
    AddEvents p es =
      Ok (set_subscribers
            ((fun ch => foldl (fun ch e => deliver e ch) ch es) <$> subscribers p)
            (set_events buf p)).
Proof.
  intros Hc Hmax. revert p hist.
  induction es as [|e es IH]; intros p hist Hrepr Hopen; simpl.
  - exists (events p). rewrite app_nil_r. split; [done|].
    rewrite map_fmap_id. by destruct p.
  - destruct (AddEvent_spec p e c hist Hc Hmax Hrepr Hopen) as (buf & _ & Hr1 & EA).
    rewrite EA. simpl.
    set (p1 := set_subscribers (deliver e <$> subscribers p) (set_events buf p)).
    destruct (IH p1 (hist ++ [e])) as (buf' & Hr2 & E2).
    { done. }
    { intros id ch. subst p1. simpl. rewrite lookup_fmap.
      destruct (subscribers p !! id) as [ch0|] eqn:E0; [|done].
      intros [= <-]. apply deliver_open. by apply (Hopen id). }
    exists buf'. rewrite <- app_assoc in Hr2. split; [done|].
    rewrite E2. subst p1. simpl. rewrite <- map_fmap_compose. by destruct p.
Qed.

(** X6. A sequence of events appended with no receive in between, on a
    process with a buffer of capacity c >= 1 and open subscriber channels:
    every AddEvent returns, the buffer's snapshot is the last c events of
    the whole history, and each subscriber's queue is its old content
    followed by the first events of the sequence, in the order appended,
    up to the channel's capacity. Events are dropped only from the moment
    the queue is full, and never reordered. *)
Theorem AddEvents_fanout_prefix (p : Process) (es : list Event) (c : nat)
    (hist : list Event) :
  (1 <= c)%nat -> Z.of_nat c <= int_max ->
  rb_repr zeroEvent c hist (events p) ->
  subs_open (subscribers p) ->
  exists p', AddEvents p es = Ok p' /\
    GetEvents p' = Ok (window c (hist ++ es)) /\
    dom (subscribers p') = dom (subscribers p) /\
    (forall id ch, subscribers p !! id = Some ch ->
       exists ch', subscribers p' !! id = Some ch' /\
         ch_buf ch' = ch_buf ch ++ take (ch_cap ch - length (ch_buf ch))%nat es /\
         ch_cap ch' = ch_cap ch /\ ch_closed ch' = false) /\
    Status p' = Status p /\ CompletedAt p' = CompletedAt p /\
    result p' = result p.
Proof.
  intros Hc Hmax Hrepr Hopen.
  destruct (AddEvents_spec es p c hist Hc Hmax Hrepr Hopen) as (buf & Hr & E).
  eexists. split; [exact E|]. simpl.
  split; [unfold GetEvents; simpl; by apply ToSlice_repr|].
  split; [apply dom_fmap_L|]. split; [|done].
  intros id ch Hid. eexists. split; [by rewrite lookup_fmap, Hid|].
  destruct (deliver_all_buf es ch) as (Hb & Hcap & Ho).
  split; [done|]. split; [done|]. apply Ho. by apply (Hopen id).
Qed.

Lemma AddEvents_fanout_prefix_witness :
  (1 <= 4)%nat /\ Z.of_nat 4 <= int_max /\
  rb_repr zeroEvent 4 [] (events sampleAudience) /\
  subs_open (subscribers sampleAudience) /\
  exists p', AddEvents sampleAudience [sampleEvent; sampleEvent] = Ok p' /\
    GetEvents p' = Ok (window 4 ([] ++ [sampleEvent; sampleEvent])) /\
    dom (subscribers p') = dom (subscribers sampleAudience) /\
    (forall id ch, subscribers sampleAudience !! id = Some ch ->
       exists ch', subscribers p' !! id = Some ch' /\
         ch_buf ch' = ch_buf ch
           ++ take (ch_cap ch - length (ch_buf ch))%nat [sampleEvent; sampleEvent] /\
         ch_cap ch' = ch_cap ch /\ ch_closed ch' = false) /\
    Status p' = Status sampleAudience /\
    CompletedAt p' = CompletedAt sampleAudience /\
    result p' = result sampleAudience.
Proof.
  assert (H1 : (1 <= 4)%nat) by lia.
  assert (H2 : Z.of_nat 4 <= int_max) by (unfold int_max; lia).
  split; [exact H1|]. split; [exact H2|].
  split; [exact sampleProcess_repr|]. split; [exact sampleAudience_open|].
  exact (AddEvents_fanout_prefix sampleAudience [sampleEvent; sampleEvent] 4 []
           H1 H2 sampleProcess_repr sampleAudience_open).
Defined.

(** X7. A subscriber sees only what is appended after it subscribed, and
    at most 100 pending events: after Subscribe and a sequence of events
    with no receive in between, its queue holds exactly the first 100
    events of the sequence, in order (none of the history buffered
    before), while the buffer's snapshot covers the history as well. *)
Theorem Subscribe_then_events (p : Process) (id : string) (es : list Event)
    (c : nat) (hist : list Event) :
  (1 <= c)%nat -> Z.of_nat c <= int_max ->
  rb_repr zeroEvent c hist (events p) ->
  subs_open (subscribers p) ->
  exists p', AddEvents (Subscribe p id) es = Ok p' /\
    (ch_buf <$> subscribers p' !! id) = Some (take 100 es) /\
    ((length es <= 100)%nat -> (ch_buf <$> subscribers p' !! id) = Some es) /\
    GetEvents p' = Ok (window c (hist ++ es)).
Proof.
  intros Hc Hmax Hrepr Hopen.
  assert (Hopen' : subs_open (subscribers (Subscribe p id))).
  { intros id' ch. unfold Subscribe. simpl. rewrite lookup_insert.
    case_decide; [by intros [= <-]|apply Hopen]. }
  destruct (AddEvents_spec es (Subscribe p id) c hist Hc Hmax Hrepr Hopen')
    as (buf & Hr & E).
  eexists. split; [exact E|]. simpl.
  rewrite lookup_fmap, lookup_insert_eq. simpl.
  destruct (deliver_all_buf es (make_chan 100)) as (Hb & _). simpl in Hb.
  rewrite Hb. split; [done|].
  split; [intros Hle; by rewrite take_ge|].
  unfold GetEvents. simpl. by apply ToSlice_repr.
Qed.

Lemma Subscribe_then_events_witness :
  (1 <= 4)%nat /\ Z.of_nat 4 <= int_max /\
  rb_repr zeroEvent 4 [] (events sampleProcess) /\
  subs_open (subscribers sampleProcess) /\
  exists p', AddEvents (Subscribe sampleProcess "reader") [sampleEvent] = Ok p' /\
    (ch_buf <$> subscribers p' !! "reader") = Some (take 100 [sampleEvent]) /\
    ((length [sampleEvent] <= 100)%nat ->
     (ch_buf <$> subscribers p' !! "reader") = Some [sampleEvent]) /\
    GetEvents p' = Ok (window 4 ([] ++ [sampleEvent])).
Proof.
  assert (H1 : (1 <= 4)%nat) by lia.
  assert (H2 : Z.of_nat 4 <= int_max) by (unfold int_max; lia).
  assert (H3 : subs_open (subscribers sampleProcess))
    by (intros id ch H; simpl in H; rewrite lookup_empty in H; discriminate H).
  split; [exact H1|]. split; [exact H2|].
  split; [exact sampleProcess_repr|]. split; [exact H3|].
  exact (Subscribe_then_events sampleProcess "reader" [sampleEvent] 4 []
           H1 H2 sampleProcess_repr H3).
Defined.

(** *** Result cache and Stop *)

(** X8. HasValidResultData answers true exactly when GetResultData
    returns a payload and the read is not at the expiry instant itself:
    whenever HasValidResultData is true GetResultData returns the cached
    payload, and the two differ only at that one instant. *)
Theorem HasValidResultData_vs_GetResultData (p : Process) (now : Time) :
  HasValidResultData p now = true <->
  (exists d, GetResultData p now = Some d /\ resultData p = Some d) /\
  resultExpiry p <> Some now.
Proof.
  unfold HasValidResultData, GetResultData, time_Before, time_After.
  destruct (resultData p) as [d|], (resultExpiry p) as [e|]; simpl.
  - destruct (Z.ltb_spec now e), (Z.ltb_spec e now); try lia.
    + split; [|done]. intros _. split; [eauto|]. intros [= ->]. lia.
    + split; [discriminate|]. by intros [(d' & ? & _) _].
    + split; [discriminate|]. intros [_ Hne]. destruct Hne. f_equal. lia.
  - split; [discriminate|]. by intros [(d' & ? & _) _].
  - split; [discriminate|]. by intros [(d' & _ & ?) _].
  - split; [discriminate|]. by intros [(d' & ? & _) _].
Qed.

(** X9. Stop acts on the job's own control state only: it emits no event
    (the buffer is unchanged), neither closes nor removes a subscriber
    channel, and sets neither result nor result cache. It cancels the
    context when a cancel function is installed, and marks the command
    killed exactly when the command was started. *)
Theorem Stop_is_silent (p : Process) (now : Time) :
  events (Stop p now) = events p /\
  GetEvents (Stop p now) = GetEvents p /\
  subscribers (Stop p now) = subscribers p /\
  GetResult (Stop p now) = GetResult p /\
  (forall t, GetResultData (Stop p now) t = GetResultData p t) /\
  cancel (Stop p now) = (fun _ => true) <$> cancel p /\
  cmd (Stop p now)
    = (fun c => if cmd_started c then cmd_Kill c else c) <$> cmd p /\
  ID (Stop p now) = ID p /\ StartedAt (Stop p now) = StartedAt p.
Proof.
  unfold Stop, GetEvents, GetResult, GetResultData.
  destruct p as [? ? ? ? st ? ? c ? ? ? cn d ? ?]. simpl.
  destruct cn, c as [[? ? ? [] ?]|], d; simpl;
    destruct ((st =? StatusPending)%string || (st =? StatusRunning)%string);
    simpl; repeat split.
Qed.

(** ** Manager: create and get, count and list, stop and remove *)

(** X10. A create call that succeeds stores the new job under the id it
    drew, where Get finds it; the job carries that id and the arguments
    of the call, is pending, started at the instant of the call, not
    completed, with an empty event history, no subscriber and no result.
    The entries under every other id, and the configuration, are as
    before. *)
Theorem Create_then_Get (m m' : Manager) (connector prompt workDir id : string)
    (now : Time) (p : Process) :
  Manager_Create m connector prompt workDir id now = Ok (m', (Some p, None)) ->
  Manager_Get m' id = (Some p, None) /\
  ID p = id /\ Connector p = connector /\ Prompt p = prompt /\
  WorkDir p = workDir /\ Status p = StatusPending /\ StartedAt p = now /\
  CompletedAt p = None /\ GetEvents p = Ok [] /\ subscribers p = ∅ /\
  GetResult p = None /\
  (forall id', id' <> id -> Manager_Get m' id' = Manager_Get m id') /\
  mconfig m' = mconfig m.
Proof.
  unfold Manager_Create. destruct (_ >=? _); [discriminate|].
  intros H. go_inv H. injection H as <- <-.
  unfold NewProcess, NewRingBuffer, make in E.
  destruct (_ <? 0); [discriminate|]. simpl in E. injection E as <-.
  unfold Manager_Get. simpl. rewrite lookup_insert_eq.
  repeat (split; [done|]). split; [|done].
  intros id' Hne. by rewrite lookup_insert_ne.
Qed.

Lemma Create_then_Get_witness :
  exists m' p,
    Manager_Create (NewManager sampleConfig) "claude" "hello" "/tmp" "id-1" 1
    = Ok (m', (Some p, None)) /\
    Manager_Get m' "id-1" = (Some p, None) /\
    ID p = "id-1" /\ Connector p = "claude" /\ Prompt p = "hello" /\
    WorkDir p = "/tmp" /\ Status p = StatusPending /\ StartedAt p = 1 /\
    CompletedAt p = None /\ GetEvents p = Ok [] /\ subscribers p = ∅ /\
    GetResult p = None /\
    (forall id', id' <> "id-1" ->
       Manager_Get m' id' = Manager_Get (NewManager sampleConfig) id') /\
    mconfig m' = mconfig (NewManager sampleConfig).
Proof.
  do 2 eexists. split; [vm_compute; reflexivity|].
  apply (Create_then_Get (NewManager sampleConfig) _ "claude" "hello" "/tmp" "id-1" 1).
  vm_compute; reflexivity.
Defined.

(** *** Count and List *)

Lemma num_active_list (ps : gmap string Process) :
  num_active ps
  = length (filter (fun p => is_active p = true) (snd <$> map_to_list ps)).
Proof.
  induction ps as [|i p ps Hi IH] using map_ind.
  - by rewrite num_active_empty, map_to_list_empty.
  - rewrite num_active_insert_None by done.
    rewrite (map_to_list_insert ps i p Hi). simpl.
    rewrite filter_cons. simpl. rewrite IH.
    destruct (is_active p) eqn:E.
    + by rewrite decide_True.
    + by rewrite decide_False by congruence.
Qed.

Lemma num_active_le_size (ps : gmap string Process) :
  (num_active ps <= size ps)%nat.
Proof. apply map_subseteq_size, map_filter_subseteq. Qed.

(** X11. For a table whose number of entries is a Go int: Count is the
    number of processes returned by List whose status is pending or
    running; List returns each process of the table, one per id, so its
    length is the number of entries; and Count lies between 0 and the
    length of List. *)
Theorem Count_vs_List (m : Manager) :
  Z.of_nat (size (processes m)) <= int_max ->
  Manager_Count m
    = Z.of_nat (length (filter (fun p => is_active p = true) (Manager_List m))) /\
  length (Manager_List m) = size (processes m) /\
  0 <= Manager_Count m <= Z.of_nat (length (Manager_List m)) /\
  (forall p, p ∈ Manager_List m <-> exists id, processes m !! id = Some p).
Proof.
  intros Hsz. pose proof (num_active_le_size (processes m)) as Hle.
  unfold Manager_Count, Manager_List.
  rewrite activeCount_spec by lia. rewrite length_fmap, length_map_to_list.
  split; [by rewrite num_active_list|]. split; [done|]. split; [lia|].
  intros p. rewrite list_elem_of_fmap. split.
  - intros ([id q] & -> & Hin). apply elem_of_map_to_list in Hin. eauto.
  - intros (id & Hid). exists (id, p). split; [done|].
    by apply elem_of_map_to_list.
Qed.

Lemma Count_vs_List_witness :
  Z.of_nat (size (processes sampleManager)) <= int_max /\
  Manager_Count sampleManager
    = Z.of_nat (length (filter (fun p => is_active p = true)
                          (Manager_List sampleManager))) /\
  length (Manager_List sampleManager) = size (processes sampleManager) /\
  0 <= Manager_Count sampleManager
    <= Z.of_nat (length (Manager_List sampleManager)) /\
  (forall p, p ∈ Manager_List sampleManager
             <-> exists id, processes sampleManager !! id = Some p).
Proof.
  assert (H : Z.of_nat (size (processes sampleManager)) <= int_max)
    by (vm_compute; discriminate).
  split; [exact H|]. exact (Count_vs_List sampleManager H).
Defined.

(** *** Stop and Remove *)

Lemma Stop_terminal (p : Process) (now : Time) :
  is_active p = true \/ is_terminal p = true -> is_terminal (Stop p now) = true.
Proof.
  intros H. unfold is_terminal. rewrite Stop_status.
  destruct (is_active p) eqn:E; [done|].
  destruct H as [H|H]; [discriminate|]. exact H.
Qed.

(** X12. Stop followed by Remove, as the delete handler calls them, always
    succeeds on a job that exists and whose status is one of the five
    status constants: Stop returns no error, Remove returns no error (not
    the active-process error, since Stop has made the job terminal), and
    afterwards the table is the old one without that id. *)
Theorem Stop_then_Remove (m : Manager) (id : string) (p : Process) (now : Time) :
  processes m !! id = Some p ->
  is_active p = true \/ is_terminal p = true ->
  (Manager_Stop m id now).2 = None /\
  Manager_Remove (Manager_Stop m id now).1 id
    = (with_processes (delete id (processes m)) m, None) /\
  Manager_Get (Manager_Remove (Manager_Stop m id now).1 id).1 id
    = (None, Some ErrProcessNotFound).
Proof.
  intros Hp Hs. unfold Manager_Stop. rewrite Hp. simpl. split; [done|].
  assert (E : Manager_Remove
                (with_processes (<[id:=Stop p now]> (processes m)) m) id
              = (with_processes (delete id (processes m)) m, None)).
  { unfold Manager_Remove. simpl. rewrite lookup_insert_eq.
    pose proof (Stop_terminal p now Hs) as Ht. unfold is_terminal in Ht.
    destruct (Status (Stop p now) =? StatusCompleted)%string,
             (Status (Stop p now) =? StatusFailed)%string,
             (Status (Stop p now) =? StatusStopped)%string;
      try discriminate; simpl; unfold with_processes; simpl;
      by rewrite delete_insert_eq. }
  rewrite E. split; [done|]. unfold Manager_Get. simpl.
  by rewrite lookup_delete_eq.
Qed.

Lemma Stop_then_Remove_witness :
  processes sampleManager !! "job-1" = Some stoppedJob /\
  (is_active stoppedJob = true \/ is_terminal stoppedJob = true) /\
  (Manager_Stop sampleManager "job-1" (6 * Second)).2 = None /\
  Manager_Remove (Manager_Stop sampleManager "job-1" (6 * Second)).1 "job-1"
    = (with_processes (delete "job-1" (processes sampleManager)) sampleManager,
       None) /\
  Manager_Get
    (Manager_Remove (Manager_Stop sampleManager "job-1" (6 * Second)).1 "job-1").1
    "job-1"
    = (None, Some ErrProcessNotFound).
Proof.
  assert (H1 : processes sampleManager !! "job-1" = Some stoppedJob) by reflexivity.
  assert (H2 : is_active stoppedJob = true \/ is_terminal stoppedJob = true)
    by (right; reflexivity).
  split; [exact H1|]. split; [exact H2|].
  exact (Stop_then_Remove sampleManager "job-1" stoppedJob (6 * Second) H1 H2).
Defined.

Lemma num_active_update (ps : gmap string Process) (id : string) (p q : Process) :
  ps !! id = Some p ->
  (num_active (<[id := q]> ps) + (if is_active p then 1 else 0)
   = num_active ps + (if is_active q then 1 else 0))%nat.
Proof.
  intros Hp. rewrite <- (insert_delete_id ps id p Hp) at 2.
  rewrite <- (insert_delete_eq ps id q).
  rewrite !num_active_insert_None by apply lookup_delete_eq.
  destruct (is_active p), (is_active q); lia.
Qed.

Lemma Stop_not_active (p : Process) (now : Time) : is_active (Stop p now) = false.
Proof.
  unfold is_active at 1. rewrite Stop_status.
  destruct (is_active p) eqn:E; [done|]. exact E.
Qed.

(** X13. Manager.Stop changes the entry of its id and nothing else: the
    set of ids and every other entry are as before. It lowers the number
    of pending or running jobs by exactly one when the job was pending or
    running, and leaves it unchanged otherwise. *)
Theorem Manager_Stop_effect (m : Manager) (id : string) (p : Process) (now : Time) :
  processes m !! id = Some p ->
  processes (Manager_Stop m id now).1 !! id = Some (Stop p now) /\
  (forall id', id' <> id ->
     processes (Manager_Stop m id now).1 !! id' = processes m !! id') /\
  dom (processes (Manager_Stop m id now).1) = dom (processes m) /\
  mconfig (Manager_Stop m id now).1 = mconfig m /\
  (num_active (processes (Manager_Stop m id now).1)
     + (if is_active p then 1 else 0) = num_active (processes m))%nat.
Proof.
  intros Hp. unfold Manager_Stop. rewrite Hp. simpl.
  split; [apply lookup_insert_eq|].
  split; [intros id' Hne; by rewrite lookup_insert_ne|].
  split.
  { apply dom_insert_lookup_L. by rewrite Hp. }
  split; [done|].
  pose proof (num_active_update (processes m) id p (Stop p now) Hp) as H.
  rewrite Stop_not_active in H. lia.
Qed.

Lemma Manager_Stop_effect_witness :
  processes sampleManager !! "job-1" = Some stoppedJob /\
  processes (Manager_Stop sampleManager "job-1" (6 * Second)).1 !! "job-1"
    = Some (Stop stoppedJob (6 * Second)) /\
  (forall id', id' <> "job-1" ->
     processes (Manager_Stop sampleManager "job-1" (6 * Second)).1 !! id'
     = processes sampleManager !! id') /\
  dom (processes (Manager_Stop sampleManager "job-1" (6 * Second)).1)
    = dom (processes sampleManager) /\
  mconfig (Manager_Stop sampleManager "job-1" (6 * Second)).1
    = mconfig sampleManager /\
  (num_active (processes (Manager_Stop sampleManager "job-1" (6 * Second)%Z).1)
     + (if is_active stoppedJob then 1 else 0)
   = num_active (processes sampleManager))%nat.
Proof.
  assert (H : processes sampleManager !! "job-1" = Some stoppedJob) by reflexivity.
  split; [exact H|].
  exact (Manager_Stop_effect sampleManager "job-1" stoppedJob (6 * Second) H).
Defined.

Lemma Create_admitted (m : Manager) connector prompt workDir id now :
  Z.of_nat (num_active (processes m)) < max_concurrent m ->
  max_concurrent m <= int_max ->
  0 <= config.BufferSize (config.Process (mconfig m)) ->
  exists p,
    Manager_Create m connector prompt workDir id now
    = Ok (with_processes (<[id := p]> (processes m)) m, (Some p, None)).
Proof.
  intros Hlt Hmax Hbuf. unfold Manager_Create.
  rewrite activeCount_spec by lia.
  destruct (Z.geb_spec (Z.of_nat (num_active (processes m))) (max_concurrent m));
    [lia|].
  destruct (NewProcess_Ok id connector prompt workDir _ now Hbuf) as (p & E & _).
  exists p. by rewrite E.
Qed.

(** X14. Stopping a pending or running job frees its admission slot: in a
    manager that is at its ceiling, where a create call is refused with
    ErrMaxConcurrent, the same create call made after Manager.Stop on one
    of the active jobs is admitted. *)
Theorem Stop_frees_a_slot (m : Manager) (id : string) (p : Process)
    (now : Time) (connector prompt workDir id' : string) (now' : Time) :
  processes m !! id = Some p -> is_active p = true ->
  Z.of_nat (num_active (processes m)) = max_concurrent m ->
  max_concurrent m <= int_max ->
  0 <= config.BufferSize (config.Process (mconfig m)) ->
  Manager_Create m connector prompt workDir id' now'
    = Ok (m, (None, Some ErrMaxConcurrent)) /\
  exists m2 p',
    Manager_Create (Manager_Stop m id now).1 connector prompt workDir id' now'
    = Ok (m2, (Some p', None)) /\
    Manager_Get m2 id' = (Some p', None).
Proof.
  intros Hp Ha Hfull Hmax Hbuf. split; [apply Create_refused; lia|].
  unfold Manager_Stop. rewrite Hp. simpl.
  pose proof (num_active_update (processes m) id p (Stop p now) Hp) as Hn.
  rewrite Stop_not_active, Ha in Hn.
  destruct (Create_admitted
              (with_processes (<[id:=Stop p now]> (processes m)) m)
              connector prompt workDir id' now') as (p' & E).
  { unfold max_concurrent in *. simpl. lia. }
  { done. }
  { done. }
  eexists _, p'. split; [exact E|].
  unfold Manager_Get. simpl. by rewrite lookup_insert_eq.
Qed.

Lemma Stop_frees_a_slot_witness :
  exists p,
    processes fullManager !! "id-1" = Some p /\ is_active p = true /\
    Z.of_nat (num_active (processes fullManager)) = max_concurrent fullManager /\
    max_concurrent fullManager <= int_max /\
    0 <= config.BufferSize (config.Process (mconfig fullManager)) /\
    Manager_Create fullManager "claude" "c" "/tmp" "id-3" 4
      = Ok (fullManager, (None, Some ErrMaxConcurrent)) /\
    exists m2 p',
      Manager_Create (Manager_Stop fullManager "id-1" 3).1
        "claude" "c" "/tmp" "id-3" 4
      = Ok (m2, (Some p', None)) /\
      Manager_Get m2 "id-3" = (Some p', None).
Proof.
  eexists.
  assert (H3 : Z.of_nat (num_active (processes fullManager))
               = max_concurrent fullManager) by (vm_compute; reflexivity).
  assert (H4 : max_concurrent fullManager <= int_max) by (vm_compute; discriminate).
  assert (H5 : 0 <= config.BufferSize (config.Process (mconfig fullManager)))
    by (vm_compute; discriminate).
  split; [vm_compute; reflexivity|]. split; [vm_compute; reflexivity|].
  split; [exact H3|]. split; [exact H4|]. split; [exact H5|].
  eapply (Stop_frees_a_slot fullManager "id-1");
    [vm_compute; reflexivity | vm_compute; reflexivity | exact H3 | exact H4
    | exact H5].
Defined.

(** *** Remove and cleanup leave the active jobs alone *)

Lemma cleanup_entry_deletes now T id p acc :
  cleanup_entry now T id p acc
  = if cleanup_deletes now T p then delete id acc else acc.
Proof.
  unfold cleanup_entry, cleanup_deletes.
  destruct (negb _ && negb _ && negb _); simpl; [done|].
  by destruct (CompletedAt p).
Qed.

Lemma cleanup_table (m : Manager) (now : Time) :
  processes (Manager_cleanup m now)
  = filter (fun kv => cleanup_deletes now (cleanup_delay m) kv.2 = false)
      (processes m).
Proof.
  unfold Manager_cleanup. simpl. fold (cleanup_delay m).
  apply map_eq. intros id.
  assert (H : forall acc0 : gmap string Process,
    map_fold (cleanup_entry now (cleanup_delay m)) acc0 (processes m) !! id =
    match processes m !! id with
    | Some p => if cleanup_deletes now (cleanup_delay m) p then None
                else acc0 !! id
    | None => acc0 !! id
    end).
  { intros acc0. revert id.
    apply (map_fold_weak_ind
      (fun r ps => forall id, r !! id =
         match ps !! id with
         | Some p => if cleanup_deletes now (cleanup_delay m) p then None
                     else acc0 !! id
         | None => acc0 !! id
         end)).
    - intros id. by rewrite lookup_empty.
    - intros i p ps r Hi IH id. rewrite cleanup_entry_deletes.
      destruct (decide (i = id)) as [->|Hne].
      + rewrite lookup_insert_eq. destruct (cleanup_deletes _ _ p).
        * apply lookup_delete_eq.
        * by rewrite IH, Hi.
      + rewrite lookup_insert_ne by done. destruct (cleanup_deletes _ _ p).
        * rewrite lookup_delete_ne by done. apply IH.
        * apply IH. }
  rewrite H. destruct (processes m !! id) as [p|] eqn:E.
  - destruct (cleanup_deletes now (cleanup_delay m) p) eqn:Ed; symmetry.
    + apply map_lookup_filter_None. right. intros x Hx. simpl. congruence.
    + by apply map_lookup_filter_Some.
  - symmetry. apply map_lookup_filter_None. by left.
Qed.

Lemma cleanup_deletes_terminal now T p :
  cleanup_deletes now T p = true -> is_active p = false.
Proof.
  unfold cleanup_deletes, is_active.
  destruct (Status p =? StatusCompleted)%string eqn:E1;
    [apply String.eqb_eq in E1 as ->; done|].
  destruct (Status p =? StatusFailed)%string eqn:E2;
    [apply String.eqb_eq in E2 as ->; done|].
  destruct (Status p =? StatusStopped)%string eqn:E3;
    [apply String.eqb_eq in E3 as ->; done|].
  discriminate.
Qed.

Lemma num_active_cleanup (m : Manager) (now : Time) :
  num_active (processes (Manager_cleanup m now)) = num_active (processes m).
Proof.
  rewrite cleanup_table. unfold num_active. f_equal.
  rewrite map_filter_filter. apply map_filter_ext.
  intros id p Hp. simpl. split; [tauto|]. intros Ha. split; [done|].
  destruct (cleanup_deletes now (cleanup_delay m) p) eqn:E; [|done].
  apply cleanup_deletes_terminal in E. congruence.
Qed.

Lemma num_active_Remove (m : Manager) (id : string) :
  num_active (processes (Manager_Remove m id).1) = num_active (processes m).
Proof.
  unfold Manager_Remove. destruct (processes m !! id) as [p|] eqn:Hp; [|done].
  destruct (negb _ && negb _ && negb _) eqn:E; [done|]. simpl.
  assert (Ha : is_active p = false).
  { unfold is_active.
    destruct (Status p =? StatusCompleted)%string eqn:E1;
      [apply String.eqb_eq in E1 as ->; done|].
    destruct (Status p =? StatusFailed)%string eqn:E2;
      [apply String.eqb_eq in E2 as ->; done|].
    destruct (Status p =? StatusStopped)%string eqn:E3;
      [apply String.eqb_eq in E3 as ->; done|].
    discriminate. }
  rewrite <- (insert_delete_id (processes m) id p Hp) at 2.
  rewrite num_active_insert_None by apply lookup_delete_eq. by rewrite Ha.
Qed.

(** X15. Neither Remove nor a cleanup sweep changes Count: both delete
    only jobs whose status is completed, failed or stopped, so they
    neither free nor take an admission slot (the table's number of
    entries being a Go int). *)
Theorem Remove_cleanup_keep_Count (m : Manager) (id : string) (now : Time) :
  Z.of_nat (size (processes m)) <= int_max ->
  Manager_Count (Manager_Remove m id).1 = Manager_Count m /\
  Manager_Count (Manager_cleanup m now) = Manager_Count m.
Proof.
  intros Hsz. pose proof (num_active_le_size (processes m)) as Hle.
  unfold Manager_Count.
  rewrite !activeCount_spec
    by (rewrite ?num_active_Remove, ?num_active_cleanup; lia).
  by rewrite num_active_Remove, num_active_cleanup.
Qed.

Lemma Remove_cleanup_keep_Count_witness :
  Z.of_nat (size (processes sampleManager)) <= int_max /\
  Manager_Count (Manager_Remove sampleManager "job-1").1
    = Manager_Count sampleManager /\
  Manager_Count (Manager_cleanup sampleManager (15 * Second))
    = Manager_Count sampleManager.
Proof.
  assert (H : Z.of_nat (size (processes sampleManager)) <= int_max)
    by (vm_compute; discriminate).
  split; [exact H|].
  exact (Remove_cleanup_keep_Count sampleManager "job-1" (15 * Second) H).
Defined.

Lemma cleanup_deletes_mono now now' T p :
  now <= now' -> cleanup_deletes now T p = true ->
  cleanup_deletes now' T p = true.
Proof.
  intros Hle. unfold cleanup_deletes, time_Sub.
  destruct (negb (negb _ && negb _ && negb _)); simpl; [|done].
  destruct (CompletedAt p) as [t|]; [|done].
  destruct (Z.geb_spec (Z.max int_min (Z.min int_max (now - t))) T),
           (Z.geb_spec (Z.max int_min (Z.min int_max (now' - t))) T);
    try done; lia.
Qed.

(** X16. Sweeps only delete, never alter, and compose by time: the table
    after a sweep is a subset of the table before, every job it keeps is
    unchanged, a later sweep keeps no more than an earlier one, and a
    sweep at [now] followed by a sweep at a later instant [now'] leaves
    exactly what the sweep at [now'] alone would; in particular a second
    sweep at the same instant changes nothing. *)
Theorem cleanup_composes (m : Manager) (now now' : Time) :
  now <= now' ->
  processes (Manager_cleanup m now) ⊆ processes m /\
  processes (Manager_cleanup m now') ⊆ processes (Manager_cleanup m now) /\
  Manager_cleanup (Manager_cleanup m now) now' = Manager_cleanup m now' /\
  Manager_cleanup (Manager_cleanup m now) now = Manager_cleanup m now.
Proof.
  intros Hle.
  assert (Hcomp : forall t1 t2, t1 <= t2 ->
    processes (Manager_cleanup (Manager_cleanup m t1) t2)
    = processes (Manager_cleanup m t2)).
  { intros t1 t2 H12. rewrite !cleanup_table.
    change (cleanup_delay (Manager_cleanup m t1)) with (cleanup_delay m).
    rewrite map_filter_filter. apply map_filter_ext.
    intros id p Hp. simpl. split; [tauto|]. intros H2. split; [done|].
    destruct (cleanup_deletes t1 (cleanup_delay m) p) eqn:E; [|done].
    apply (cleanup_deletes_mono t1 t2) in E; [congruence|done]. }
  assert (Hm : forall t1 t2, t1 <= t2 ->
    Manager_cleanup (Manager_cleanup m t1) t2 = Manager_cleanup m t2).
  { intros t1 t2 H12. specialize (Hcomp t1 t2 H12).
    destruct (Manager_cleanup (Manager_cleanup m t1) t2) as [ps1 c1] eqn:E1.
    destruct (Manager_cleanup m t2) as [ps2 c2] eqn:E2.
    simpl in Hcomp. subst ps2. f_equal.
    apply (f_equal mconfig) in E1, E2. simpl in E1, E2. congruence. }
  split; [rewrite cleanup_table; apply map_filter_subseteq|].
  split.
  { rewrite <- (Hcomp now now' Hle). rewrite (cleanup_table (Manager_cleanup m now)).
    apply map_filter_subseteq. }
  split; [by apply Hm|]. apply Hm. lia.
Qed.

Lemma cleanup_composes_witness :
  15 * Second <= 20 * Second /\
  processes (Manager_cleanup sampleManager (15 * Second))
    ⊆ processes sampleManager /\
  processes (Manager_cleanup sampleManager (20 * Second))
    ⊆ processes (Manager_cleanup sampleManager (15 * Second)) /\
  Manager_cleanup (Manager_cleanup sampleManager (15 * Second)) (20 * Second)
    = Manager_cleanup sampleManager (20 * Second) /\
  Manager_cleanup (Manager_cleanup sampleManager (15 * Second)) (15 * Second)
    = Manager_cleanup sampleManager (15 * Second).
Proof.
  assert (H : 15 * Second <= 20 * Second) by (unfold Second; lia).
  split; [exact H|].
  exact (cleanup_composes sampleManager (15 * Second) (20 * Second) H).
Defined.

(** ** Runner: launch failure, the end of a run, the line reader *)

Lemma deliver_fmap_open event (subs : gmap string Chan) :
  subs_open subs -> subs_open (deliver event <$> subs).
Proof.
  intros Hopen id ch. rewrite lookup_fmap.
  destruct (subs !! id) as [ch0|] eqn:E; [|done].
  intros [= <-]. apply deliver_open. by apply (Hopen id).
Qed.

Lemma go_bind_Ok {A B : Type} (a : A) (f : A -> go B) : Ok a ≫= f = f a.
Proof. reflexivity. Qed.

(** [AddEvent] then [Close], on a process with a sound buffer and open
    channels. *)
Lemma AddEvent_Close (p : Process) (e : Event) (now : Time) (c : nat)
    (hist : list Event) :
  (1 <= c)%nat -> Z.of_nat c <= int_max ->
  rb_repr zeroEvent c hist (events p) -> subs_open (subscribers p) ->
  exists p1 p2,
    AddEvent p e = Ok p1 /\ Close p1 now = Ok p2 /\
    rb_repr zeroEvent c (hist ++ [e]) (events p2) /\
    subscribers p2 = ∅ /\ done p2 = true /\
    CompletedAt p2 = Some (default now (CompletedAt p)) /\
    Status p2 = Status p /\ result p2 = result p /\ ID p2 = ID p /\
    Close_recv p1 now = Ok (p2, chan_closed <$> (deliver e <$> subscribers p)).
Proof.
  intros Hc Hmax Hrepr Hopen.
  destruct (AddEvent_spec p e c hist Hc Hmax Hrepr Hopen) as (buf & _ & Hr & EA).
  set (p1 := set_subscribers (deliver e <$> subscribers p) (set_events buf p)) in *.
  assert (Ho1 : subs_open (subscribers p1)) by (by apply deliver_fmap_open).
  destruct (Close_recv_open p1 now Ho1) as (p2 & EC & ER).
  exists p1, p2. split; [done|]. split; [done|].
  pose proof (Close_inv p1 p2 now EC)
    as (subs & Hcl & HS & He & Hs & Hres & _ & _ & Hd & Hca).
  rewrite close_all_open in Hcl by done. injection Hcl as <-.
  rewrite He, HS, Hres, Hca, Hs. simpl.
  split; [exact Hr|]. split; [done|]. split; [done|].
  split; [by destruct (CompletedAt p)|]. split; [done|]. split; [done|].
  split; [|exact ER].
  unfold Close in EC. destruct (done p1); simpl in EC; go_inv EC;
    injection EC as <-; by destruct (CompletedAt p).
Qed.

(** The channels closed after a sequence of deliveries, seen from the
    table before the deliveries. *)
Lemma closed_after_deliveries (es : list Event) (subs : gmap string Chan) :
  let closed :=
    chan_closed <$> ((fun ch => foldl (fun ch e => deliver e ch) ch es) <$> subs) in
  dom closed = dom subs /\
  forall id ch, subs !! id = Some ch ->
    exists ch', closed !! id = Some ch' /\ ch_closed ch' = true /\
      ch_cap ch' = ch_cap ch /\
      ch_buf ch' = ch_buf ch ++ take (ch_cap ch - length (ch_buf ch))%nat es.
Proof.
  intros closed. split.
  { unfold closed. by rewrite !dom_fmap_L. }
  intros id ch Hid. eexists. split.
  { unfold closed. rewrite !lookup_fmap, Hid. reflexivity. }
  destruct (deliver_all_buf es ch) as (Hb & Hc & _). simpl. done.
Qed.

Lemma closed_after_one (e : Event) (subs : gmap string Chan) :
  let closed := chan_closed <$> (deliver e <$> subs) in
  dom closed = dom subs /\
  forall id ch, subs !! id = Some ch ->
    exists ch', closed !! id = Some ch' /\ ch_closed ch' = true /\
      ch_cap ch' = ch_cap ch /\
      ch_buf ch' = ch_buf ch ++ take (ch_cap ch - length (ch_buf ch))%nat [e].
Proof. exact (closed_after_deliveries [e] subs). Qed.

Lemma closed_after_two (e1 e2 : Event) (subs : gmap string Chan) :
  let closed := chan_closed <$> (deliver e2 <$> (deliver e1 <$> subs)) in
  dom closed = dom subs /\
  forall id ch, subs !! id = Some ch ->
    exists ch', closed !! id = Some ch' /\ ch_closed ch' = true /\
      ch_cap ch' = ch_cap ch /\
      ch_buf ch' = ch_buf ch ++ take (ch_cap ch - length (ch_buf ch))%nat [e1; e2].
Proof.
  cbv zeta. rewrite <- (map_fmap_compose (deliver e1) (deliver e2)).
  exact (closed_after_deliveries [e1; e2] subs).
Qed.

(** [handleError_recv] and [run_cmdDone] against [handleError] and the
    steps of [run]: they panic together, and otherwise return the same
    process. *)
Lemma handleError_recv_fst (marshal_error : string -> string)
    (marshal_done : string -> string -> option Result -> string)
    (p : Process) (err : string) (now1 now2 now3 : Time) :
  handleError_recv marshal_error marshal_done p err now1 now2 now3
    ≫= (fun st => Ok st.1)
  = handleError marshal_error marshal_done p err now1 now2 now3.
Proof.
  unfold handleError_recv, handleError. cbv zeta.
  destruct (sendErrorEvent _ _ _ _) as [p1|e]; [|done]. simpl.
  destruct (sendDoneEvent _ _ _) as [p2|e]; [|done]. simpl.
  apply Close_recv_fst.
Qed.

Lemma run_cmdDone_fst (marshal_error : string -> string)
    (marshal_done : string -> string -> option Result -> string)
    (p : Process) (cmdErr : option cmd_error) (now1 now2 now3 : Time) :
  run_cmdDone marshal_error marshal_done p cmdErr now1 now2 now3
    ≫= (fun st => Ok st.1)
  = (q ← run_select marshal_error p (CmdDone cmdErr) now1;
     run_finish marshal_done q now2 now3).
Proof.
  unfold run_cmdDone, run_finish.
  destruct (run_select _ _ _ _) as [p1|e]; [|done]. simpl.
  destruct (sendDoneEvent _ _ _) as [p2|e]; [|done]. simpl.
  apply Close_recv_fst.
Qed.

Section RunnerOutcomes.
Variable marshal_error : string -> string.
Variable marshal_done : string -> string -> option Result -> string.

(** X17. A launch failure (handleError) on a process with a buffer of
  capacity c >= 1 and open subscriber channels never panics and leaves
  the job failed, with the result exit code 1 and the error message, an
  error event followed by a done event at the end of the history (the
  done event carrying the id, the status failed and that result). Every
  subscriber channel is removed from the table and is found closed by
  its subscriber, holding what it held before followed by the error and
  the done event as far as it had room. The done channel is closed and
  completedAt is set (to the instant of Close unless it was set
  before). *)
Theorem handleError_outcome (p : Process) (err : string) (now1 now2 now3 : Time)
  (c : nat) (hist : list Event) :
(1 <= c)%nat -> Z.of_nat c <= int_max ->
rb_repr zeroEvent c hist (events p) -> subs_open (subscribers p) ->
let r := {| ExitCode := 1; Output := None; Error := err |} in
let errorEvent :=
  {| Type_ := "error"; Data := Some (marshal_error err); Timestamp := now1 |} in
let doneEvent :=
  {| Type_ := "done";
     Data := Some (marshal_done (ID p) StatusFailed (Some r));
     Timestamp := now2 |} in
exists p' closed,
  handleError marshal_error marshal_done p err now1 now2 now3 = Ok p' /\
  handleError_recv marshal_error marshal_done p err now1 now2 now3
    = Ok (p', closed) /\
  Status p' = StatusFailed /\ GetResult p' = Some r /\
  GetEvents p' = Ok (window c (hist ++ [errorEvent; doneEvent])) /\
  dom closed = dom (subscribers p) /\
  (forall id ch, subscribers p !! id = Some ch ->
     exists ch', closed !! id = Some ch' /\ ch_closed ch' = true /\
       ch_cap ch' = ch_cap ch /\
       ch_buf ch' = ch_buf ch
         ++ take (ch_cap ch - length (ch_buf ch))%nat [errorEvent; doneEvent]) /\
  subscribers p' = ∅ /\ done p' = true /\
  CompletedAt p' = Some (default now3 (CompletedAt p)).
Proof.
intros Hc Hmax Hrepr Hopen. cbv zeta.
unfold handleError, handleError_recv, sendErrorEvent, sendDoneEvent.
set (r := {| ExitCode := 1; Output := None; Error := err |}).
set (errorEvent := {| Type_ := "error"; Data := Some (marshal_error err);
                      Timestamp := now1 |}).
set (doneEvent := {| Type_ := "done";
                     Data := Some (marshal_done (ID p) StatusFailed (Some r));
                     Timestamp := now2 |}).
set (p0 := SetResult (SetStatus p StatusFailed) (Some r)).
destruct (AddEvent_spec p0 errorEvent c hist Hc Hmax Hrepr Hopen)
  as (buf & _ & Hr1 & EA).
rewrite EA, !go_bind_Ok. cbv beta.
set (p1 := set_subscribers _ (set_events buf p0)).
destruct (AddEvent_Close p1 doneEvent now3 c (hist ++ [errorEvent]) Hc Hmax)
  as (p2 & p3 & E2 & E3 & Hr3 & Hs & Hd & Hca & HS & Hres & _ & ER).
{ done. }
{ by apply deliver_fmap_open. }
change (GetResult p1) with (Some r). change (Status p1) with StatusFailed.
change (ID p1) with (ID p). fold doneEvent. rewrite E2, !go_bind_Ok.
destruct (closed_after_two errorEvent doneEvent (subscribers p)) as (Hdom & Hch).
exists p3, (chan_closed <$> (deliver doneEvent <$> subscribers p1)).
split; [done|]. split; [done|]. split; [done|]. split; [done|].
split.
{ unfold GetEvents. rewrite <- app_assoc in Hr3. by apply ToSlice_repr. }
split; [exact Hdom|]. split; [exact Hch|]. done.
Qed.

(** X18. A run whose command ends before its context is done (the cmdDone
  case of the select, which waits for the line reader to return before
  it does anything else), on a process with a buffer of capacity c >= 1
  and open subscriber channels, with no other call on the process in
  between: it never panics; the status is failed when the command
  returned an error and completed when it returned nil; the result holds
  the exit code of an exit error, 1 for any other error, 0 on success,
  with the error's message; the history ends with the done event, which
  carries the id, that status and that result, preceded by an error
  event with the message when the command failed. Every subscriber
  channel is removed from the table and is found closed by its
  subscriber, holding what it held before followed by these events as
  far as it had room. The done channel is closed and completedAt is
  set. *)
Theorem run_cmdDone_outcome (p : Process) (cmdErr : option cmd_error)
  (now1 now2 now3 : Time) (c : nat) (hist : list Event) :
(1 <= c)%nat -> Z.of_nat c <= int_max ->
rb_repr zeroEvent c hist (events p) -> subs_open (subscribers p) ->
let status :=
  match cmdErr with Some _ => StatusFailed | None => StatusCompleted end in
let r :=
  match cmdErr with
  | Some (ExitError code msg) =>
      {| ExitCode := code; Output := None; Error := msg |}
  | Some (OtherError msg) => {| ExitCode := 1; Output := None; Error := msg |}
  | None => {| ExitCode := 0; Output := None; Error := EmptyString |}
  end in
let doneEvent :=
  {| Type_ := "done"; Data := Some (marshal_done (ID p) status (Some r));
     Timestamp := now2 |} in
let emitted :=
  match cmdErr with
  | Some _ =>
      [ {| Type_ := "error"; Data := Some (marshal_error (Error r));
           Timestamp := now1 |}; doneEvent ]
  | None => [doneEvent]
  end in
exists p' closed,
  run_cmdDone marshal_error marshal_done p cmdErr now1 now2 now3
    = Ok (p', closed) /\
  (q ← run_select marshal_error p (CmdDone cmdErr) now1;
   run_finish marshal_done q now2 now3) = Ok p' /\
  Status p' = status /\ GetResult p' = Some r /\
  GetEvents p' = Ok (window c (hist ++ emitted)) /\
  dom closed = dom (subscribers p) /\
  (forall id ch, subscribers p !! id = Some ch ->
     exists ch', closed !! id = Some ch' /\ ch_closed ch' = true /\
       ch_cap ch' = ch_cap ch /\
       ch_buf ch' = ch_buf ch
         ++ take (ch_cap ch - length (ch_buf ch))%nat emitted) /\
  subscribers p' = ∅ /\ done p' = true /\
  CompletedAt p' = Some (default now3 (CompletedAt p)).
Proof.
intros Hc Hmax Hrepr Hopen. cbv zeta.
unfold run_cmdDone, run_select, run_finish, sendErrorEvent, sendDoneEvent.
destruct cmdErr as [cmdErr|].
- set (r := {| ExitCode := getExitCode cmdErr; Output := None;
               Error := cmd_error_Error cmdErr |}).
  assert (Er : match cmdErr with
               | ExitError code msg =>
                   {| ExitCode := code; Output := None; Error := msg |}
               | OtherError msg =>
                   {| ExitCode := 1; Output := None; Error := msg |}
               end = r) by (by destruct cmdErr).
  rewrite Er. change (Error r) with (cmd_error_Error cmdErr).
  set (p0 := SetResult (SetStatus p StatusFailed) (Some r)).
  set (e1 := {| Type_ := "error"; Data := _; Timestamp := now1 |}).
  destruct (AddEvent_spec p0 e1 c hist Hc Hmax Hrepr Hopen)
    as (buf & _ & Hr1 & EA).
  rewrite EA, !go_bind_Ok. cbv beta.
  set (p1 := set_subscribers _ (set_events buf p0)).
  change (GetResult p1) with (Some r). change (Status p1) with StatusFailed.
  change (ID p1) with (ID p).
  set (e2 := {| Type_ := "done"; Data := _; Timestamp := now2 |}).
  destruct (AddEvent_Close p1 e2 now3 c (hist ++ [e1]) Hc Hmax)
    as (p2 & p3 & E2 & E3 & Hr3 & Hs & Hd & Hca & HS & Hres & _ & ER).
  { done. }
  { by apply deliver_fmap_open. }
  rewrite E2, !go_bind_Ok.
  destruct (closed_after_two e1 e2 (subscribers p)) as (Hdom & Hch).
  exists p3, (chan_closed <$> (deliver e2 <$> subscribers p1)).
  split; [done|]. split; [done|]. split; [done|]. split; [done|].
  split.
  { unfold GetEvents. rewrite <- app_assoc in Hr3. by apply ToSlice_repr. }
  split; [exact Hdom|]. split; [exact Hch|]. done.
- rewrite !go_bind_Ok. cbv beta.
  set (r := {| ExitCode := 0; Output := None; Error := EmptyString |}).
  set (p0 := SetResult (SetStatus p StatusCompleted) (Some r)).
  change (GetResult p0) with (Some r). change (Status p0) with StatusCompleted.
  change (ID p0) with (ID p).
  set (e2 := {| Type_ := "done"; Data := _; Timestamp := now2 |}).
  destruct (AddEvent_Close p0 e2 now3 c hist Hc Hmax)
    as (p2 & p3 & E2 & E3 & Hr3 & Hs & Hd & Hca & HS & Hres & _ & ER).
  { done. }
  { done. }
  rewrite E2, !go_bind_Ok.
  destruct (closed_after_one e2 (subscribers p)) as (Hdom & Hch).
  exists p3, (chan_closed <$> (deliver e2 <$> subscribers p0)).
  split; [done|]. split; [done|]. split; [done|]. split; [done|].
  split; [unfold GetEvents; by apply ToSlice_repr|].
  split; [exact Hdom|]. split; [exact Hch|]. done.
Qed.

End RunnerOutcomes.

Lemma handleError_outcome_witness :
  (1 <= 4)%nat /\ Z.of_nat 4 <= int_max /\
  rb_repr zeroEvent 4 [] (events sampleAudience) /\
  subs_open (subscribers sampleAudience) /\
  let r := {| ExitCode := 1; Output := None; Error := "not found" |} in
  let errorEvent :=
    {| Type_ := "error"; Data := Some (sample_marshal_error "not found");
       Timestamp := 1 |} in
  let doneEvent :=
    {| Type_ := "done";
       Data := Some (sample_marshal_done (ID sampleAudience) StatusFailed (Some r));
       Timestamp := 2 |} in
  exists p' closed,
    handleError sample_marshal_error sample_marshal_done sampleAudience
      "not found" 1 2 3 = Ok p' /\
    handleError_recv sample_marshal_error sample_marshal_done sampleAudience
      "not found" 1 2 3 = Ok (p', closed) /\
    Status p' = StatusFailed /\ GetResult p' = Some r /\
    GetEvents p' = Ok (window 4 ([] ++ [errorEvent; doneEvent])) /\
    dom closed = dom (subscribers sampleAudience) /\
    (forall id ch, subscribers sampleAudience !! id = Some ch ->
       exists ch', closed !! id = Some ch' /\ ch_closed ch' = true /\
         ch_cap ch' = ch_cap ch /\
         ch_buf ch' = ch_buf ch
           ++ take (ch_cap ch - length (ch_buf ch))%nat [errorEvent; doneEvent]) /\
    subscribers p' = ∅ /\ done p' = true /\
    CompletedAt p' = Some (default 3 (CompletedAt sampleAudience)).
Proof.
  assert (H1 : (1 <= 4)%nat) by lia.
  assert (H2 : Z.of_nat 4 <= int_max) by (unfold int_max; lia).
  split; [exact H1|]. split; [exact H2|].
  split; [exact sampleProcess_repr|]. split; [exact sampleAudience_open|].
  exact (handleError_outcome sample_marshal_error sample_marshal_done
           sampleAudience "not found" 1 2 3 4 []
           H1 H2 sampleProcess_repr sampleAudience_open).
Defined.

Lemma run_cmdDone_outcome_witness :
  (1 <= 4)%nat /\ Z.of_nat 4 <= int_max /\
  rb_repr zeroEvent 4 [] (events sampleAudience) /\
  subs_open (subscribers sampleAudience) /\
  let r := {| ExitCode := 2; Output := None; Error := "exit status 2" |} in
  let doneEvent :=
    {| Type_ := "done";
       Data := Some (sample_marshal_done (ID sampleAudience) StatusFailed (Some r));
       Timestamp := 2 |} in
  let emitted :=
    [ {| Type_ := "error"; Data := Some (sample_marshal_error "exit status 2");
         Timestamp := 1 |}; doneEvent ] in
  exists p' closed,
    run_cmdDone sample_marshal_error sample_marshal_done sampleAudience
      (Some (ExitError 2 "exit status 2")) 1 2 3 = Ok (p', closed) /\
    (q ← run_select sample_marshal_error sampleAudience
           (CmdDone (Some (ExitError 2 "exit status 2"))) 1;
     run_finish sample_marshal_done q 2 3) = Ok p' /\
    Status p' = StatusFailed /\ GetResult p' = Some r /\
    GetEvents p' = Ok (window 4 ([] ++ emitted)) /\
    dom closed = dom (subscribers sampleAudience) /\
    (forall id ch, subscribers sampleAudience !! id = Some ch ->
       exists ch', closed !! id = Some ch' /\ ch_closed ch' = true /\
         ch_cap ch' = ch_cap ch /\
         ch_buf ch' = ch_buf ch
           ++ take (ch_cap ch - length (ch_buf ch))%nat emitted) /\
    subscribers p' = ∅ /\ done p' = true /\
    CompletedAt p' = Some (default 3 (CompletedAt sampleAudience)).
Proof.
  assert (H1 : (1 <= 4)%nat) by lia.
  assert (H2 : Z.of_nat 4 <= int_max) by (unfold int_max; lia).
  split; [exact H1|]. split; [exact H2|].
  split; [exact sampleProcess_repr|]. split; [exact sampleAudience_open|].
  exact (run_cmdDone_outcome sample_marshal_error sample_marshal_done
           sampleAudience (Some (ExitError 2 "exit status 2")) 1 2 3 4 []
           H1 H2 sampleProcess_repr sampleAudience_open).
Defined.

(** *** The line reader *)

Lemma omap_cons_eq {A B : Type} (f : A -> option B) (x : A) (l : list A) :
  omap f (x :: l)
  = match f x with Some y => y :: omap f l | None => omap f l end.
Proof. reflexivity. Qed.

(** What [streamOutput] has done after a list of lines, on a process with
    a sound buffer and open channels. *)
Lemma streamOutput_spec (c : ConnectorI) (lines : list (string * Time * Time))
    (p : Process) (cap : nat) (hist : list Event) :
  (1 <= cap)%nat -> Z.of_nat cap <= int_max ->
  rb_repr zeroEvent cap hist (events p) -> subs_open (subscribers p) ->
  exists p', streamOutput c p lines = Ok p' /\
    rb_repr zeroEvent cap (hist ++ omap (line_event c) lines) (events p') /\
    subs_open (subscribers p') /\
    dom (subscribers p') = dom (subscribers p) /\
    Status p' = Status p /\ CompletedAt p' = CompletedAt p /\
    result p' = result p /\
    (resultData p', resultExpiry p')
    = match last (omap (line_cache_write c) lines) with
      | Some (d, s) => (d, Some (s + 10 * Minute))
      | None => (resultData p, resultExpiry p)
      end.
Proof.
  intros Hc Hmax. revert p hist.
  induction lines as [|[[line now1] now2] lines IH]; intros p hist Hrepr Hopen.
  { exists p. simpl. rewrite app_nil_r. done. }
  assert (Hstep : exists p1,
    stream_line c p line now1 now2 = Ok p1 /\
    rb_repr zeroEvent cap
      (hist ++ option_list (line_event c (line, now1, now2))) (events p1) /\
    subs_open (subscribers p1) /\
    dom (subscribers p1) = dom (subscribers p) /\
    Status p1 = Status p /\ CompletedAt p1 = CompletedAt p /\
    result p1 = result p /\
    (resultData p1, resultExpiry p1)
    = match line_cache_write c (line, now1, now2) with
      | Some (d, s) => (d, Some (s + 10 * Minute))
      | None => (resultData p, resultExpiry p)
      end).
  { unfold stream_line, line_cache_write, line_event. simpl.
    destruct (ParseLine c line) as [[ev|] [err|]]; simpl;
      try (exists p; rewrite app_nil_r; done).
    set (e := {| Type_ := Type_ ev; Data := Data ev; Timestamp := now1 |}).
    destruct (AddEvent_spec p e cap hist Hc Hmax Hrepr Hopen)
      as (buf & _ & Hr1 & EA).
    rewrite EA, go_bind_Ok. cbv beta.
    destruct (Type_ ev =? "result")%string; eexists; (split; [reflexivity|]);
      simpl; (split; [done|]); (split; [by apply deliver_fmap_open|]);
      (split; [apply dom_fmap_L|]); done. }
  destruct Hstep as (p1 & E1 & Hr1 & Ho1 & Hd1 & HS1 & Hc1 & Hres1 & Hcache1).
  destruct (IH p1 _ Hr1 Ho1) as (p' & E & Hr & Ho & Hd & HS & Hca & Hres & Hcache).
  exists p'.
  change (streamOutput c p ((line, now1, now2) :: lines))
    with (stream_line c p line now1 now2
            ≫= fun process => streamOutput c process lines).
  rewrite E1, go_bind_Ok, !omap_cons_eq.
  split; [done|]. split.
  { destruct (line_event c (line, now1, now2)); simpl in Hr;
      by rewrite <- ?app_assoc, ?app_nil_r in Hr. }
  split; [done|]. split; [congruence|]. split; [congruence|].
  split; [congruence|]. split; [congruence|].
  rewrite Hcache.
  destruct (line_cache_write c (line, now1, now2)) as [[d s]|].
  - rewrite last_cons.
    destruct (last _) as [[d' s']|]; [done|]. exact Hcache1.
  - destruct (last _) as [[d' s']|]; [done|]. exact Hcache1.
Qed.

(** X19. The line reader, for any connector, on a process with a buffer of
    capacity c >= 1 and open subscriber channels: it never panics; it
    appends one event per line for which the parser returns an event and
    no error, in the order of the lines and stamped with the clock read
    for that line, and nothing for the other lines; and it changes
    neither the status, the completion time, the result nor the set of
    subscribers. *)
Theorem streamOutput_history (c : ConnectorI) (lines : list (string * Time * Time))
    (p : Process) (cap : nat) (hist : list Event) :
  (1 <= cap)%nat -> Z.of_nat cap <= int_max ->
  rb_repr zeroEvent cap hist (events p) -> subs_open (subscribers p) ->
  exists p', streamOutput c p lines = Ok p' /\
    GetEvents p' = Ok (window cap (hist ++ omap (line_event c) lines)) /\
    (length (omap (line_event c) lines) <= length lines)%nat /\
    dom (subscribers p') = dom (subscribers p) /\
    Status p' = Status p /\ CompletedAt p' = CompletedAt p /\
    result p' = result p.
Proof.
  intros Hc Hmax Hrepr Hopen.
  destruct (streamOutput_spec c lines p cap hist Hc Hmax Hrepr Hopen)
    as (p' & E & Hr & _ & Hd & HS & Hca & Hres & _).
  exists p'. split; [done|].
  split; [unfold GetEvents; by apply ToSlice_repr|].
  split; [|done].
  clear. induction lines as [|l lines IH]; [done|].
  rewrite omap_cons_eq. destruct (line_event c l); simpl; lia.
Qed.

Lemma streamOutput_history_witness :
  (1 <= 4)%nat /\ Z.of_nat 4 <= int_max /\
  rb_repr zeroEvent 4 [] (events sampleRunning) /\
  subs_open (subscribers sampleRunning) /\
  exists p', streamOutput sampleClaude sampleRunning sampleLines = Ok p' /\
    GetEvents p'
      = Ok (window 4 ([] ++ omap (line_event sampleClaude) sampleLines)) /\
    (length (omap (line_event sampleClaude) sampleLines)
     <= length sampleLines)%nat /\
    dom (subscribers p') = dom (subscribers sampleRunning) /\
    Status p' = Status sampleRunning /\
    CompletedAt p' = CompletedAt sampleRunning /\
    result p' = result sampleRunning.
Proof.
  assert (H1 : (1 <= 4)%nat) by lia.
  assert (H2 : Z.of_nat 4 <= int_max) by (unfold int_max; lia).
  assert (H3 : subs_open (subscribers sampleRunning)).
  { intros id ch. simpl. rewrite lookup_insert. case_decide.
    - by intros [= <-].
    - by rewrite lookup_empty. }
  split; [exact H1|]. split; [exact H2|].
  split; [exact sampleProcess_repr|]. split; [exact H3|].
  exact (streamOutput_history sampleClaude sampleLines sampleRunning 4 []
           H1 H2 sampleProcess_repr H3).
Defined.

Example sampleLines_events :
  omap (line_event sampleClaude) sampleLines
  = [ {| Type_ := "stream"; Data := Some "{}"; Timestamp := 2 |};
      {| Type_ := "stream"; Data := Some "{}"; Timestamp := 3 |} ].
Proof. reflexivity. Qed.

(** X20. After the line reader has processed a list of lines, the result
    cache holds the payload of the last line that gave an event of kind
    result, expiring 10 minutes after the clock read for that line: a
    later result line replaces an earlier one. When no line gave a result
    event the cache is as it was before. *)
Theorem streamOutput_caches_last_result (c : ConnectorI)
    (lines : list (string * Time * Time)) (p : Process) (cap : nat)
    (hist : list Event) :
  (1 <= cap)%nat -> Z.of_nat cap <= int_max ->
  rb_repr zeroEvent cap hist (events p) -> subs_open (subscribers p) ->
  exists p', streamOutput c p lines = Ok p' /\
    forall t,
      GetResultData p' t
      = match last (omap (line_cache_write c) lines) with
        | Some (d, s) => if t <=? s + 10 * Minute then d else None
        | None => GetResultData p t
        end.
Proof.
  intros Hc Hmax Hrepr Hopen.
  destruct (streamOutput_spec c lines p cap hist Hc Hmax Hrepr Hopen)
    as (p' & E & _ & _ & _ & _ & _ & _ & Hcache).
  exists p'. split; [done|]. intros t. unfold GetResultData, time_After.
  destruct (last _) as [[d s]|]; injection Hcache as Hd He; rewrite Hd, He;
    [|done].
  destruct (Z.ltb_spec (s + 10 * Minute) t), (Z.leb_spec t (s + 10 * Minute));
    done || lia.
Qed.

(** A connector whose parser takes every line as a result event. *)
Lemma streamOutput_caches_last_result_witness :
  let c := {| Name := "echo";
              BuildCommand := BuildCommand sampleClaude;
              ParseLine := fun line =>
                (Some {| Type_ := "result"; Data := Some line; Timestamp := 0 |},
                 None) |} in
  (1 <= 4)%nat /\ Z.of_nat 4 <= int_max /\
  rb_repr zeroEvent 4 [] (events sampleProcess) /\
  subs_open (subscribers sampleProcess) /\
  exists p', streamOutput c sampleProcess [("a", 1, 2); ("b", 3, 4)] = Ok p' /\
    forall t,
      GetResultData p' t
      = match last (omap (line_cache_write c) [("a", 1, 2); ("b", 3, 4)]) with
        | Some (d, s) => if t <=? s + 10 * Minute then d else None
        | None => GetResultData sampleProcess t
        end.
Proof.
  intros c.
  assert (H1 : (1 <= 4)%nat) by lia.
  assert (H2 : Z.of_nat 4 <= int_max) by (unfold int_max; lia).
  assert (H3 : subs_open (subscribers sampleProcess))
    by (intros id ch H; simpl in H; rewrite lookup_empty in H; discriminate H).
  split; [exact H1|]. split; [exact H2|].
  split; [exact sampleProcess_repr|]. split; [exact H3|].
  exact (streamOutput_caches_last_result c [("a", 1, 2); ("b", 3, 4)]
           sampleProcess 4 [] H1 H2 sampleProcess_repr H3).
Defined.

(** X21. The Claude parser never returns an error. It returns no event
    exactly when the line is empty once trimmed or json.Unmarshal of the
    trimmed line into a map returns an error. On every other line it
    returns one event whose payload is the trimmed line itself, whose
    timestamp is left zero, and whose kind is result when the map that
    Unmarshal filled has the string "result" under the key "type", and
    stream otherwise. A line that Unmarshal accepts while leaving the map
    without a "type" key (an object without that field, or the literal
    null, which leaves the map nil) therefore yields a stream event. *)
Theorem Claude_ParseLine_total (TrimSpace : string -> string)
    (json_Unmarshal : string -> option (gmap string json)) (line : string) :
  (Claude_ParseLine TrimSpace json_Unmarshal line).2 = None /\
  ((Claude_ParseLine TrimSpace json_Unmarshal line).1 = None <->
   TrimSpace line = EmptyString \/ json_Unmarshal (TrimSpace line) = None) /\
  (forall e, (Claude_ParseLine TrimSpace json_Unmarshal line).1 = Some e ->
     Data e = Some (TrimSpace line) /\ Timestamp e = 0 /\
     exists rawJSON, json_Unmarshal (TrimSpace line) = Some rawJSON /\
       (Type_ e = "result" <-> rawJSON !! "type" = Some (JString "result")) /\
       (Type_ e <> "result" -> Type_ e = "stream")) /\
  (forall rawJSON, TrimSpace line <> EmptyString ->
     json_Unmarshal (TrimSpace line) = Some rawJSON ->
     rawJSON !! "type" = None ->
     Claude_ParseLine TrimSpace json_Unmarshal line
     = (Some {| Type_ := "stream"; Data := Some (TrimSpace line);
                Timestamp := 0 |}, None)).
Proof.
  unfold Claude_ParseLine.
  destruct (String.eqb_spec (TrimSpace line) EmptyString) as [E|E]; simpl.
  { split; [done|]. split; [tauto|]. split; [discriminate|]. done. }
  destruct (json_Unmarshal (TrimSpace line)) as [rawJSON|] eqn:EU; simpl.
  - split; [done|]. split.
    { split; [discriminate|]. intros [?|?]; congruence. }
    split.
    + intros e [= <-]. simpl. split; [done|]. split; [done|].
      exists rawJSON. split; [done|].
      destruct (rawJSON !! "type") as [[| | |s| |]|] eqn:Et;
        try (split; [split; discriminate|done]).
      destruct (String.eqb_spec s "result") as [->|Hne].
      * split; [done|]. intros H. by destruct H.
      * split; [|done]. split; [discriminate|]. congruence.
    + intros raw _ [= <-] Ht. by rewrite Ht.
  - split; [done|]. split; [tauto|]. split; discriminate.
Qed.

(** ** Connector registry *)

Section RegistryProperties.
Import connector.

Lemma elem_of_Available (r : Registry) (name : string) :
name ∈ Available r <->
exists c, connectors r !! name = Some c /\ IsAvailable c = true.
Proof.
unfold Available. rewrite list_elem_of_omap. split.
- intros ([k c] & Hin & H). simpl in H.
  apply elem_of_map_to_list in Hin.
  destruct (IsAvailable c) eqn:E; [|discriminate].
  injection H as ->. by exists c.
- intros (c & Hl & Ha). exists (name, c). split.
  + by apply elem_of_map_to_list.
  + simpl. by rewrite Ha.
Qed.

Lemma elem_of_List (r : Registry) (name : string) :
name ∈ List r <-> is_Some (connectors r !! name).
Proof.
unfold List. rewrite list_elem_of_fmap. split.
- intros ([k c] & -> & Hin). apply elem_of_map_to_list in Hin. by exists c.
- intros [c Hc]. exists (name, c). split; [done|].
  by apply elem_of_map_to_list.
Qed.

(** X22. Registering a connector makes it the one stored under its name,
  replacing an earlier one of that name: looking the name up afterwards
  returns this very connector when it is available and the unavailable
  error when it is not, never the not-found error; every other name is
  looked up as before. *)
Theorem Register_then_Get (r : Registry) (c : Connector) (name : string) :
Get (Register r c) name
= if decide (name = Name c)
  then (if IsAvailable c then (Some c, None)
        else (None, Some ErrConnectorUnavailable))
  else Get r name.
Proof.
unfold Get, Register. simpl. case_decide as E.
- subst name. rewrite lookup_insert_eq. by destruct (IsAvailable c).
- by rewrite lookup_insert_ne.
Qed.

(** X23. The two listings agree with lookup. A name is listed as
  available exactly when looking it up succeeds, and it is listed at all
  exactly when looking it up does not answer not-found; so every
  available name is a listed name. Neither listing repeats a name. *)
Theorem listings_agree_with_Get (r : Registry) :
(forall name, name ∈ Available r <-> exists c, Get r name = (Some c, None)) /\
(forall name,
   name ∈ List r <-> Get r name <> (None, Some ErrConnectorNotFound)) /\
(forall name, name ∈ Available r -> name ∈ List r) /\
NoDup (List r) /\ NoDup (Available r).
Proof.
assert (HA : forall name,
  name ∈ Available r <-> exists c, Get r name = (Some c, None)).
{ intros name. rewrite elem_of_Available. unfold Get. split.
  - intros (c & -> & Ha). exists c. by rewrite Ha.
  - intros (c & H). destruct (connectors r !! name) as [c'|]; [|discriminate].
    destruct (IsAvailable c') eqn:E; simpl in H; [|discriminate].
    injection H as ->. by exists c. }
assert (HL : forall name,
  name ∈ List r <-> Get r name <> (None, Some ErrConnectorNotFound)).
{ intros name. rewrite elem_of_List. unfold Get. split.
  - intros [c ->]. by destruct (IsAvailable c).
  - destruct (connectors r !! name) as [c|]; [by eexists|]. intros H.
    by destruct H. }
split; [exact HA|]. split; [exact HL|]. split.
{ intros name H. apply HL. apply HA in H as [c ->]. discriminate. }
split.
- apply NoDup_fst_map_to_list.
- unfold Available.
  assert (HN := NoDup_fst_map_to_list (connectors r)).
  induction (map_to_list (connectors r)) as [|[k c] l IH]; simpl.
  { constructor. }
  apply NoDup_cons in HN as [Hk HN]. simpl in Hk.
  destruct (IsAvailable c); [|by apply IH].
  apply NoDup_cons. split; [|by apply IH].
  intros Hin. apply Hk. apply list_elem_of_omap in Hin as ([k' c'] & Hin & H).
  simpl in H. destruct (IsAvailable c'); [|discriminate]. injection H as ->.
  apply list_elem_of_fmap. by exists (k, c').
Qed.

(** X24. Setting up an empty registry from a configuration registers
  exactly one connector, under the name claude. It is listed whatever the
  configuration says; it is listed as available, and looking it up
  returns a connector named claude, exactly when the configuration marks
  it available, and the lookup answers unavailable otherwise. Every other
  name is not found. *)
Theorem SetupFromConfig_registers_claude (TrimSpace : string -> string)
  (json_Unmarshal : string -> option (gmap string json))
  (claude : config.ConnectorConfig) :
let r := SetupFromConfig TrimSpace json_Unmarshal NewRegistry claude in
List r = ["claude"] /\
Available r = (if config.Available claude then ["claude"] else []) /\
(if config.Available claude
 then exists c, Get r "claude" = (Some c, None) /\ Name c = "claude"
 else Get r "claude" = (None, Some ErrConnectorUnavailable)) /\
(forall name, name <> "claude" ->
   Get r name = (None, Some ErrConnectorNotFound)).
Proof.
intros r. unfold r, SetupFromConfig, Register, NewRegistry, List, Available.
simpl. change (Name (NewClaudeConnector TrimSpace json_Unmarshal claude))
  with "claude".
rewrite insert_empty, map_to_list_singleton. simpl.
unfold Claude_IsAvailable.
split; [done|]. split; [by destruct (config.Available claude)|]. split.
- unfold Get. simpl. rewrite lookup_singleton_eq. simpl.
  unfold Claude_IsAvailable.
  destruct (config.Available claude) eqn:E; simpl; [|done].
  eexists. split; [reflexivity|]. reflexivity.
- intros name Hn. unfold Get. simpl. by rewrite lookup_singleton_ne.
Qed.

End RegistryProperties.
